(** * Snapshot integrity and the preview/confirm/apply protocol

    A shallow embedding of [pkg/resource/deploy/snapshot.go] (module
    [deploy]) and of [pkg/backend/apply.go] (module [backend]), with the
    properties of the snapshot verifier, of [Clone], of the manifest
    checksum and of the orchestrator proved over the embedding.

    Go maps are modelled as stdpp [gmap]s, Go strings as [string], slices
    as lists, pointers as locations of an explicit store. *)

From Stdlib Require Import ZArith Ascii String.
From stdpp Require Import gmap strings list fin_maps.

(** [resource.URN] and [tokens.QName] are Go string types. *)
Abbreviation URN := string.
Abbreviation QName := string.

(** Heap locations: the addresses behind Go pointers. *)
Abbreviation loc := positive.

(** ** What [snapshot.go] imports

    The packages [resource], [workspace], [time] and [crypto/sha256] are
    not part of the sources at hand.  Their types and functions are taken
    as parameters of the development; every result below holds for any
    choice of them. *)
Class DeployImports := {
  (** [resource.ResourceStatus], compared with [==] in the verifier. *)
  ResourceStatus : Type;
  ResourceStatus_eq_dec :: EqDecision ResourceStatus;
  ResourceStatusUnspecified : ResourceStatus;
  ResourceStatusDeleted : ResourceStatus;
  (** [func (s ResourceStatus) Live() bool] *)
  Live : ResourceStatus → bool;
  (** [sha256.Sum256], from bytes to the 32 bytes of the digest. *)
  Sum256 : list Z → list Z;
  (** [time.Time] and its zero value. *)
  Time : Type;
  TimeZero : Time;
  (** [workspace.PluginInfo] *)
  PluginInfo : Type;
}.

(** ** Formatting with [%x] *)

Definition hexdigit (d : Z) : ascii :=
  match d with
  | 0 => "0" | 1 => "1" | 2 => "2" | 3 => "3" | 4 => "4" | 5 => "5"
  | 6 => "6" | 7 => "7" | 8 => "8" | 9 => "9" | 10 => "a" | 11 => "b"
  | 12 => "c" | 13 => "d" | 14 => "e" | _ => "f"
  end%Z%char.

(** [fmt.Sprintf("%x", bs)] on a byte array: two lower-case hexadecimal
    digits per byte. *)
Fixpoint Sprintf_x (bs : list Z) : string :=
  match bs with
  | [] => ""
  | b :: bs' =>
      String (hexdigit ((b / 16) mod 16)) (String (hexdigit (b mod 16)) (Sprintf_x bs'))
  end.

(** [[]byte(s)] *)
Fixpoint bytes_of_string (s : string) : list Z :=
  match s with
  | EmptyString => []
  | String c s' => Z.of_N (N_of_ascii c) :: bytes_of_string s'
  end.

Module deploy.
Section Deploy.
Context `{DeployImports}.

(** The fields of [resource.State] that the snapshot code reads. *)
Record State := mkState {
  URN_ : URN;
  Parent : URN;
  Dependencies : list URN;
  Status : ResourceStatus;
}.

Record Manifest := mkManifest {
  Time_ : Time;
  Magic : string;
  Version : string;
  Plugins : list PluginInfo;
}.

(** [Snapshot], with the element type of [Resources] left open: at
    [Snapshot loc] the sequence holds pointers as in the Go struct
    ([[]*resource.State]); at [Snapshot State] it holds the states those
    pointers lead to, which is all [VerifyIntegrity] looks at. *)
Record Snapshot (R : Type) := mkSnapshot {
  Stack : QName;
  SnapManifest : Manifest;
  Resources : list R;
}.
Global Arguments mkSnapshot {R} _ _ _.
Global Arguments Stack {R} _.
Global Arguments SnapManifest {R} _.
Global Arguments Resources {R} _.

(** [func (m Manifest) NewMagic() string] *)
Definition NewMagic (m : Manifest) : string :=
  if decide (Version m = "") then ""
  else Sprintf_x (Sum256 (bytes_of_string (Version m))).

(** [func NewSnapshot(stack, manifest, resources) *Snapshot] *)
Definition NewSnapshot {R} (stack : QName) (manifest : Manifest) (resources : list R)
  : Snapshot R :=
  mkSnapshot stack manifest resources.

(** The errors of [VerifyIntegrity], one constructor per [errors.Errorf]
    call with the values it formats, in the order of the source. *)
Inductive Error :=
  | ErrMagicMismatch
      (* "magic cookie mismatch; possible tampering/corruption detected" *)
  | ErrParentAfter (urn par : URN)
      (* "child resource %s's parent %s comes after it" *)
  | ErrParentMissing (urn par : URN)
      (* "child resource %s refers to missing parent %s" *)
  | ErrDependencyAfter (urn dep : URN)
      (* "resource %s's dependency %s comes after it" *)
  | ErrDependencyMissing (urn dep : URN)
      (* "resource %s dependency %s refers to missing resource" *)
  | ErrStatusUnspecified (urn : URN)
      (* "resource %s has status `unspecified`" *)
  | ErrStatusDeleted (urn : URN)
      (* "resource %s has status `deleted`" *)
  | ErrDuplicateLive (urn : URN) (status : ResourceStatus).
      (* "duplicate live resource %s, with status %s" *)

(** [for _, other := range snap.Resources[i+1:] { if other.URN == u ... } ] *)
Definition comes_after (u : URN) (rest : list State) : bool :=
  existsb (λ other, bool_decide (URN_ other = u)) rest.

(** The parent test of one iteration (lines 79-90). *)
Definition check_parent (urns : gmap URN State) (state : State) (rest : list State)
  : option Error :=
  let urn := URN_ state in
  let par := Parent state in
  if decide (par ≠ "") then
    match urns !! par with
    | Some _ => None
    | None =>
        if comes_after par rest then Some (ErrParentAfter urn par)
        else Some (ErrParentMissing urn par)
    end
  else None.

(** The loop over [state.Dependencies] (lines 92-103). *)
Fixpoint check_dependencies (urns : gmap URN State) (urn : URN) (deps : list URN)
    (rest : list State) : option Error :=
  match deps with
  | [] => None
  | dep :: deps' =>
      match urns !! dep with
      | Some _ => check_dependencies urns urn deps' rest
      | None =>
          if comes_after dep rest then Some (ErrDependencyAfter urn dep)
          else Some (ErrDependencyMissing urn dep)
      end
  end.

(** The status tests and the live-duplicate test (lines 105-116). *)
Definition check_status (seenLive : gmap URN bool) (state : State) : option Error :=
  let urn := URN_ state in
  if decide (Status state = ResourceStatusUnspecified) then Some (ErrStatusUnspecified urn)
  else if decide (Status state = ResourceStatusDeleted) then Some (ErrStatusDeleted urn)
  else
    match seenLive !! urn with
    | Some seen =>
        if seen && Live (Status state) then Some (ErrDuplicateLive urn (Status state))
        else None
    | None => None
    end.

(** All the tests of one iteration, in the order of the source. *)
Definition check_state (urns : gmap URN State) (seenLive : gmap URN bool)
    (state : State) (rest : list State) : option Error :=
  match check_parent urns state rest with
  | Some e => Some e
  | None =>
      match check_dependencies urns (URN_ state) (Dependencies state) rest with
      | Some e => Some e
      | None => check_status seenLive state
      end
  end.

(** The updates at the end of an iteration (lines 118-123). *)
Definition record_urn (urns : gmap URN State) (state : State) : gmap URN State :=
  <[URN_ state := state]> urns.

Definition record_live (seenLive : gmap URN bool) (state : State) : gmap URN bool :=
  match seenLive !! URN_ state with
  | None => <[URN_ state := Live (Status state)]> seenLive
  | Some seen => <[URN_ state := seen || Live (Status state)]> seenLive
  end.

(** [for i, state := range snap.Resources]: the recursion is on the part
    of the sequence from index [i] on, so that the tail is
    [snap.Resources[i+1:]]. *)
Fixpoint verify_resources (urns : gmap URN State) (seenLive : gmap URN bool)
    (resources : list State) : option Error :=
  match resources with
  | [] => None
  | state :: rest =>
      match check_state urns seenLive state rest with
      | Some e => Some e
      | None => verify_resources (record_urn urns state) (record_live seenLive state) rest
      end
  end.

(** [func (snap *Snapshot) VerifyIntegrity() error]; [None] is [nil].
    The receiver is a non-nil snapshot whose [Resources] are valid
    pointers, read here through to the states. *)
Definition VerifyIntegrity (snap : Snapshot State) : option Error :=
  if decide (Magic (SnapManifest snap) ≠ NewMagic (SnapManifest snap)) then
    Some ErrMagicMismatch
  else verify_resources ∅ ∅ (Resources snap).

(** *** [Clone], on pointers

    [Clone] is about the objects behind [snap.Resources], so it is
    modelled on [Snapshot loc] and a store of states. *)

(** Reading a snapshot's pointers through the store. *)
Definition states (σ : gmap loc State) (snap : Snapshot loc) : option (list State) :=
  mapM (λ l, σ !! l) (Resources snap).

(** Modelled from the spec: [func (s *State) Clone() *State] of package
    [resource], whose source is not at hand.  A deep copy: a new object,
    at an address not in use, that holds an equal state. *)
Definition State_Clone (σ : gmap loc State) (res : loc) : option (loc * gmap loc State) :=
  st ← σ !! res;
  let l := fresh (dom σ) in
  Some (l, <[l := st]> σ).

(** [for _, res := range snap.Resources {
       newSnap.Resources = append(newSnap.Resources, res.Clone()) }] *)
Fixpoint clone_resources (σ : gmap loc State) (resources : list loc) (acc : list loc)
  : option (list loc * gmap loc State) :=
  match resources with
  | [] => Some (acc, σ)
  | res :: rest =>
      match State_Clone σ res with
      | Some (l, σ') => clone_resources σ' rest (acc ++ [l])
      | None => None
      end
  end.

(** The zero value of [Manifest], which [var newSnap Snapshot] starts with. *)
Definition zeroManifest : Manifest := mkManifest TimeZero "" "" [].

(** [func (snap *Snapshot) Clone() *Snapshot]: [Stack] and [Resources] are
    assigned, nothing else is. *)
Definition Clone (σ : gmap loc State) (snap : Snapshot loc)
  : option (Snapshot loc * gmap loc State) :=
  match clone_resources σ (Resources snap) [] with
  | Some (rs, σ') => Some (mkSnapshot (Stack snap) zeroManifest rs, σ')
  | None => None
  end.

(** *** The invariants, as properties of a sequence of states *)

(** A resource with URN [u] occurs in [pre]. *)
Definition present (pre : list State) (u : URN) : Prop :=
  ∃ r, r ∈ pre ∧ URN_ r = u.

(** A live resource with URN [u] occurs in [pre]. *)
Definition live_present (pre : list State) (u : URN) : Prop :=
  ∃ r, r ∈ pre ∧ URN_ r = u ∧ Live (Status r) = true.

(** The invariants 2 to 5 of a snapshot, for one resource [r] and the
    resources [pre] before it. *)
Record well_placed (pre : list State) (r : State) : Prop := {
  wp_parent : Parent r ≠ "" → present pre (Parent r);
  wp_dependencies : ∀ d, d ∈ Dependencies r → present pre d;
  wp_unspecified : Status r ≠ ResourceStatusUnspecified;
  wp_deleted : Status r ≠ ResourceStatusDeleted;
  wp_live : Live (Status r) = true → ¬ live_present pre (URN_ r);
}.

(** What an error says, read against the resource [r] it was raised for
    and the resources [pre] before it: the error names [r], and the
    invariant it reports is broken at [r]. *)
Definition describes (e : Error) (pre : list State) (r : State) : Prop :=
  match e with
  | ErrMagicMismatch => False
  | ErrParentAfter urn par | ErrParentMissing urn par =>
      urn = URN_ r ∧ par = Parent r ∧ par ≠ "" ∧ ¬ present pre par
  | ErrDependencyAfter urn dep | ErrDependencyMissing urn dep =>
      urn = URN_ r ∧ dep ∈ Dependencies r ∧ ¬ present pre dep
  | ErrStatusUnspecified urn =>
      urn = URN_ r ∧ Status r = ResourceStatusUnspecified
  | ErrStatusDeleted urn =>
      urn = URN_ r ∧ Status r = ResourceStatusDeleted
  | ErrDuplicateLive urn status =>
      urn = URN_ r ∧ status = Status r ∧ Live status = true ∧ live_present pre urn
  end.

(** The place of the test that raises an error among the tests of
    [VerifyIntegrity], in the order of the source. *)
Definition test_order (e : Error) : nat :=
  match e with
  | ErrMagicMismatch => 0
  | ErrParentAfter _ _ | ErrParentMissing _ _ => 1
  | ErrDependencyAfter _ _ | ErrDependencyMissing _ _ => 2
  | ErrStatusUnspecified _ => 3
  | ErrStatusDeleted _ => 4
  | ErrDuplicateLive _ _ => 5
  end.

(** The URN an error message starts with. *)
Definition error_urn (e : Error) : option URN :=
  match e with
  | ErrMagicMismatch => None
  | ErrParentAfter urn _ | ErrParentMissing urn _
  | ErrDependencyAfter urn _ | ErrDependencyMissing urn _
  | ErrStatusUnspecified urn | ErrStatusDeleted urn
  | ErrDuplicateLive urn _ => Some urn
  end.

(** A resource with URN [u] stands at an index below [i]. *)
Definition occurs_before (rs : list State) (i : nat) (u : URN) : Prop :=
  ∃ j r, j < i ∧ rs !! j = Some r ∧ URN_ r = u.

(** Invariants 2 and 3: parents and dependencies stand earlier. *)
Definition ordered (rs : list State) : Prop :=
  ∀ i r, rs !! i = Some r →
    (Parent r ≠ "" → occurs_before rs i (Parent r)) ∧
    (∀ d, d ∈ Dependencies r → occurs_before rs i d).

(** Invariant 4: no status is [Unspecified] or [Deleted]. *)
Definition statuses_valid (rs : list State) : Prop :=
  ∀ r, r ∈ rs →
    Status r ≠ ResourceStatusUnspecified ∧ Status r ≠ ResourceStatusDeleted.

(** Invariant 5: two live resources with one URN are one resource. *)
Definition one_live_per_URN (rs : list State) : Prop :=
  ∀ i j ri rj, rs !! i = Some ri → rs !! j = Some rj →
    URN_ ri = URN_ rj → Live (Status ri) = true → Live (Status rj) = true → i = j.

(** A resource with URN [u] stands at an index above [i]. *)
Definition occurs_after (rs : list State) (i : nat) (u : URN) : Prop :=
  ∃ j r, i < j ∧ rs !! j = Some r ∧ URN_ r = u.

(** What an error of misplacement says of the sequence: for "comes after
    it", the resource it names stands at some index, the URN it misses
    stands above and not below; for "missing", the URN stands at no
    other index than that of the resource. *)
Definition located (e : Error) (rs : list State) : Prop :=
  match e with
  | ErrParentAfter urn u | ErrDependencyAfter urn u =>
      ∃ i r, rs !! i = Some r ∧ URN_ r = urn ∧
             occurs_after rs i u ∧ ¬ occurs_before rs i u
  | ErrParentMissing urn u | ErrDependencyMissing urn u =>
      ∃ i r, rs !! i = Some r ∧ URN_ r = urn ∧
             ¬ occurs_after rs i u ∧ ¬ occurs_before rs i u
  | _ => True
  end.

(** A snapshot of pointers read through the store, as a snapshot of
    states. *)
Definition deref (σ : gmap loc State) (snap : Snapshot loc) : option (Snapshot State) :=
  match states σ snap with
  | Some sts => Some (mkSnapshot (Stack snap) (SnapManifest snap) sts)
  | None => None
  end.

(** The two maps of the loop, after the resources [pre] went through. *)
Record tracks (pre : list State) (urns : gmap URN State) (seenLive : gmap URN bool)
  : Prop := {
  tracks_urns : ∀ u, is_Some (urns !! u) ↔ present pre u;
  tracks_live : ∀ u, seenLive !! u = Some true ↔ live_present pre u;
}.

End Deploy.
End deploy.

(** ** What [apply.go] imports

    [deploy.Plan], [display.ResourceChanges] and [backend.Stack] are
    opaque to the orchestrator; [Ext] stands for whatever else an applier
    acts on (providers, the checkpoint store). *)
Class BackendImports := {
  Plan : Type;
  ResourceChanges : Type;
  BackendStack : Type;
  Ext : Type;
}.

Module backend.

(** The keys of [updateTextMap]. *)
Inductive UpdateKind :=
  | PreviewUpdate
  | UpdateUpdate
  | RefreshUpdate
  | DestroyUpdate
  | StackImportUpdate
  | ResourceImportUpdate.

Global Instance UpdateKind_eq_dec : EqDecision UpdateKind.
Proof. solve_decision. Defined.

(** Go [error] values as far as this file builds them. *)
Inductive error :=
  | ErrorString (msg : string)
  | ErrConfirmationCancelled (kind : UpdateKind) (err : error).
      (* "confirmation cancelled, not proceeding with the %s: %w" *)

(** Modelled from the spec: the non-nil values of [result.Result], a
    package whose source is not at hand.  A bail is a result that carries
    no error; [nil] is [None] of [option Result]. *)
Inductive Result :=
  | Bail
  | FromError (err : error).

Definition IsBail (r : Result) : bool :=
  match r with Bail => true | FromError _ => false end.

Definition IsError (r : Result) : bool :=
  match r with Bail => false | FromError _ => true end.

(** [engine.Event]: its type and what [countResources] reads of its
    payload, [p.Metadata.Type.String()]. *)
Inductive EventType :=
  | ResourcePreEvent
  | ResourceOutputsEvent
  | SummaryEvent
  | OtherEvent (name : string).

Inductive EventPayload :=
  | ResourcePreEventPayload (ty : string)
  | OtherPayload.

Record Event := mkEvent {
  Type_ : EventType;
  Payload : EventPayload;
}.

Record ApplierOptions := mkApplierOptions {
  DryRun : bool;
  ShowLink : bool;
}.

(** The fields of [engine.UpdateOptions] and [UpdateOptions] that the
    orchestrator reads or writes; [Plan_] is a [*deploy.Plan]. *)
Record EngineOptions := mkEngineOptions {
  Plan_ : option loc;
  Experimental : bool;
  GeneratePlan : bool;
}.

Record UpdateOptions := mkUpdateOptions {
  Engine : EngineOptions;
  AutoApprove : bool;
  SkipPreview : bool;
}.

Record UpdateOperation := mkUpdateOperation {
  Opts : UpdateOptions;
}.

(** [type response string] and its constants. *)
Definition yes : string := "yes".
Definition no : string := "no".
Definition details : string := "details".

(** What [survey.AskOne] hands back: an error, or the chosen response. *)
Inductive Answer :=
  | AskErr (err : error)
  | AskResponse (response : string).

Section Backend.
Context `{BackendImports}.

(** What an applier can reach: the plan objects and the outside world. *)
Record World := mkWorld {
  plans : gmap loc Plan;
  ext : Ext;
}.

(** What a call of an [Applier] gives: its three results and the events
    it sent on the channel it was handed. *)
Record Applied := mkApplied {
  ret_plan : option loc;
  ret_changes : ResourceChanges;
  ret_res : option Result;
  ret_events : list Event;
}.

(** [type Applier func(ctx, kind, stack, op, opts, events) (...)], a
    function of the world it runs in. *)
Definition Applier : Type :=
  UpdateKind → BackendStack → UpdateOperation → ApplierOptions → World → World * Applied.

(** What can be observed of a run of the orchestrator. *)
Inductive Action :=
  | ActApply (kind : UpdateKind) (op : UpdateOperation) (opts : ApplierOptions)
      (plan : option Plan)
      (* [apply] is called; [plan] is what [op.Opts.Engine.Plan] points to
         at that moment *)
  | ActPrompt (kind : UpdateKind) (choices : list string) (default : string)
      (* [survey.AskOne] with these options *)
  | ActPrintNoResources
      (* "There are no resources in your stack (other than the stack resource)." *)
  | ActPrintDeclined (kind : UpdateKind)
      (* "confirmation declined, not proceeding with the %s" *)
  | ActPrintDiff (kind : UpdateKind) (events : list Event).
      (* [os.Stdout.WriteString(createDiff(kind, events, opts.Display) + "\n")] *)

(** The state a run goes through: the world, the answers the user is
    still to give, and the actions so far. *)
Record Run := mkRun {
  world : World;
  answers : list Answer;
  trace : list Action;
}.

(** State passing; [None] is a run that never returns (it waits for an
    answer that does not come) or follows a dangling pointer. *)
Definition M (A : Type) : Type := Run → option (A * Run).

Definition ret {A} (a : A) : M A := λ r, Some (a, r).

Definition bind {A B} (m : M A) (k : A → M B) : M B :=
  λ r, match m r with
       | Some (a, r') => k a r'
       | None => None
       end.

Definition emit (acts : list Action) : M unit :=
  λ r, Some (tt, mkRun (world r) (answers r) (trace r ++ acts)).

Definition call (apply : Applier) (kind : UpdateKind) (stack : BackendStack)
    (op : UpdateOperation) (opts : ApplierOptions) : M Applied :=
  λ r, let '(w, out) := apply kind stack op opts (world r) in
       let seen := Plan_ (Engine (Opts op)) ≫= (λ p, plans (world r) !! p) in
       Some (out, mkRun w (answers r) (trace r ++ [ActApply kind op opts seen])).

(** Modelled from the spec: [func (p *Plan) Clone() *Plan] of package
    [deploy], whose source is not at hand.  A deep clone: a new plan
    object, at an address not in use, with the same content. *)
Definition Plan_Clone (p : loc) : M loc :=
  λ r, match plans (world r) !! p with
       | Some content =>
           let l := fresh (dom (plans (world r))) in
           Some (l, mkRun (mkWorld (<[l := content]> (plans (world r))) (ext (world r)))
                          (answers r) (trace r))
       | None => None
       end.

Notation "x <- m ;; k" := (bind m (λ x, k))
  (at level 100, m at next level, right associativity, only parsing).

(** The goroutine of [PreviewThenPrompt] keeps the events of three types.
    The events it has stored when [apply] returns are taken to be those
    the applier sent on the channel, in order. *)
Definition collected (e : Event) : bool :=
  match Type_ e with
  | ResourcePreEvent | ResourceOutputsEvent | SummaryEvent => true
  | OtherEvent _ => false
  end.

(** [func countResources(events []engine.Event) int] *)
Fixpoint countResources (events : list Event) : nat :=
  match events with
  | [] => 0
  | e :: es =>
      match Type_ e, Payload e with
      | ResourcePreEvent, ResourcePreEventPayload ty =>
          if decide (ty = "pulumi:pulumi:Stack") then countResources es
          else S (countResources es)
      | _, _ => countResources es
      end
  end.

(** The [for] loop of [confirmBeforeUpdating], one iteration per answer:
    the result, the answers left and the actions of the loop.  With no
    answer left the prompt waits, and the loop gives [None]. *)
Fixpoint confirm_loop (kind : UpdateKind) (events : list Event) (opts : UpdateOptions)
    (pending : list Answer) : option (option Result * list Answer * list Action) :=
  match pending with
  | [] => None
  | a :: rest =>
      let choices := [yes; no] ++ (if SkipPreview opts then [] else [details]) in
      let prompt := ActPrompt kind choices no in
      match a with
      | AskErr err =>
          Some (Some (FromError (ErrConfirmationCancelled kind err)), rest, [prompt])
      | AskResponse response =>
          if decide (response = no) then
            Some (Some Bail, rest, [prompt; ActPrintDeclined kind])
          else if decide (response = yes) then
            Some (None, rest, [prompt])
          else
            let shown :=
              if decide (response = details) then [ActPrintDiff kind events] else [] in
            match confirm_loop kind events opts rest with
            | Some (res, rest', acts) => Some (res, rest', prompt :: shown ++ acts)
            | None => None
            end
      end
  end.

(** [func confirmBeforeUpdating(kind, stack, events, opts) result.Result] *)
Definition confirmBeforeUpdating (kind : UpdateKind) (stack : BackendStack)
    (events : list Event) (opts : UpdateOptions) : M (option Result) :=
  λ r, match confirm_loop kind events opts (answers r) with
       | Some (res, rest, acts) => Some (res, mkRun (world r) rest (trace r ++ acts))
       | None => None
       end.

(** Lines 129-134: for an update that creates no resource, a line of
    information is printed before the prompt. *)
Definition no_resources_info (kind : UpdateKind) (events : list Event) : list Action :=
  if bool_decide (kind ≠ UpdateUpdate) then []
  else if bool_decide (countResources events = 0) then [ActPrintNoResources]
  else [].

(** [func PreviewThenPrompt(ctx, kind, stack, op, apply)] *)
Definition PreviewThenPrompt (kind : UpdateKind) (stack : BackendStack)
    (op : UpdateOperation) (apply : Applier)
  : M (option loc * ResourceChanges * option Result) :=
  let opts := mkApplierOptions true true in
  out <- call apply kind stack op opts ;;
  let events := filter (λ e, collected e = true) (ret_events out) in
  let plan := ret_plan out in
  let changes := ret_changes out in
  match ret_res out with
  | Some res => ret (plan, changes, Some res)
  | None =>
      if AutoApprove (Opts op) || bool_decide (kind = PreviewUpdate) then
        ret (plan, changes, None)
      else
        _ <- emit (no_resources_info kind events) ;;
        res <- confirmBeforeUpdating kind stack events (Opts op) ;;
        ret (plan, changes, res)
  end.

Definition set_Plan (op : UpdateOperation) (plan : option loc) : UpdateOperation :=
  let o := Opts op in
  let e := Engine o in
  mkUpdateOperation
    (mkUpdateOptions (mkEngineOptions plan (Experimental e) (GeneratePlan e))
       (AutoApprove o) (SkipPreview o)).

Definition set_GeneratePlan (op : UpdateOperation) (b : bool) : UpdateOperation :=
  let o := Opts op in
  let e := Engine o in
  mkUpdateOperation
    (mkUpdateOptions (mkEngineOptions (Plan_ e) (Experimental e) b)
       (AutoApprove o) (SkipPreview o)).

(** The end of [PreviewThenPromptThenExecute] (lines 234-244): the change
    itself, with [DryRun] off. *)
Definition execute (kind : UpdateKind) (stack : BackendStack) (op : UpdateOperation)
    (apply : Applier) : M (ResourceChanges * option Result) :=
  let opts := mkApplierOptions false true in
  let op := set_GeneratePlan op false in
  out <- call apply kind stack op opts ;;
  ret (ret_changes out, ret_res out).

(** Lines 213-216: [originalPlan], a clone of the plan of the operation
    when it has one. *)
Definition clone_original (op : UpdateOperation) : M (option loc) :=
  match Plan_ (Engine (Opts op)) with
  | Some p => l <- Plan_Clone p ;; ret (Some l)
  | None => ret None
  end.

(** [func PreviewThenPromptThenExecute(ctx, kind, stack, op, apply)] *)
Definition PreviewThenPromptThenExecute (kind : UpdateKind) (stack : BackendStack)
    (op : UpdateOperation) (apply : Applier) : M (ResourceChanges * option Result) :=
  if negb (SkipPreview (Opts op)) then
    originalPlan <- clone_original op ;;
    previewed <- PreviewThenPrompt kind stack op apply ;;
    let '(plan, changes, res) := previewed in
    if bool_decide (res ≠ None) || bool_decide (kind = PreviewUpdate) then
      ret (changes, res)
    else
      let op :=
        match originalPlan with
        | Some l => set_Plan op (Some l)
        | None => if Experimental (Engine (Opts op)) then set_Plan op plan
                  else set_Plan op None
        end in
      execute kind stack op apply
  else execute kind stack op apply.

(** *** Vocabulary for the properties of a run *)

(** A call of the applier with [DryRun] off: the real apply. *)
Definition is_real (a : Action) : bool :=
  match a with
  | ActApply _ _ opts _ => negb (DryRun opts)
  | _ => false
  end.

(** The options of the confirmation prompt. *)
Definition choices (opts : UpdateOptions) : list string :=
  [yes; no] ++ (if SkipPreview opts then [] else [details]).

(** What the applier gives for the preview of [op] in the world [w]. *)
Definition preview (apply : Applier) (kind : UpdateKind) (stack : BackendStack)
    (op : UpdateOperation) (w : World) : World * Applied :=
  apply kind stack op (mkApplierOptions true true) w.

(** An applier reaches the plan objects through the operation it is
    handed: it may change the plan [op.Opts.Engine.Plan] points to and
    make new plan objects, and it leaves the other plan objects as they
    are. *)
Definition confined (apply : Applier) : Prop :=
  ∀ kind stack op opts w l,
    Plan_ (Engine (Opts op)) ≠ Some l →
    l ∈ dom (plans w) →
    plans (apply kind stack op opts w).1 !! l = plans w !! l.

(** A call of the applier, dry or not. *)
Definition is_apply (a : Action) : bool :=
  match a with
  | ActApply _ _ _ _ => true
  | _ => false
  end.

Definition is_prompt (a : Action) : bool :=
  match a with
  | ActPrompt _ _ _ => true
  | _ => false
  end.

Definition is_diff (a : Action) : bool :=
  match a with
  | ActPrintDiff _ _ => true
  | _ => false
  end.

(** An answer that ends the loop of [confirmBeforeUpdating]: an error of
    the prompt, "yes" or "no". *)
Definition terminal (a : Answer) : bool :=
  match a with
  | AskErr _ => true
  | AskResponse response => bool_decide (response = yes) || bool_decide (response = no)
  end.

(** What the loop returns on the answer that ends it. *)
Definition outcome (kind : UpdateKind) (a : Answer) : option Result :=
  match a with
  | AskErr err => Some (FromError (ErrConfirmationCancelled kind err))
  | AskResponse response => if decide (response = no) then Some Bail else None
  end.

(** An answer that asks for the details. *)
Definition asks_details (a : Answer) : bool :=
  match a with
  | AskErr _ => false
  | AskResponse response => bool_decide (response = details)
  end.

(** The number of elements of a list that pass a test. *)
Definition count {A} (f : A → bool) (l : list A) : nat :=
  length (filter (λ x, f x = true) l).

End Backend.

(** The plan an operation points to, in a world. *)
Abbreviation seen_plan w op := (Plan_ (Engine (Opts op)) ≫= (λ p, plans w !! p)).

(** The options of the preview: [DryRun] and [ShowLink] set. *)
Abbreviation dry := (mkApplierOptions true true).

End backend.

(** ** SHA-256

    [crypto/sha256] of Go's standard library, after FIPS 180-4, on 32-bit
    words held in [Z]; it instantiates [Sum256] where a checksum is to be
    computed. *)
Module sha256.
Local Open Scope Z_scope.

Definition w32 (x : Z) : Z := Z.land x 4294967295.

Definition add32 (x y : Z) : Z := w32 (x + y).

Definition rotr (n x : Z) : Z :=
  Z.lor (Z.shiftr x n) (w32 (Z.shiftl x (32 - n))).

Definition Ch (x y z : Z) : Z :=
  Z.lxor (Z.land x y) (Z.land (Z.lxor x 4294967295) z).

Definition Maj (x y z : Z) : Z :=
  Z.lxor (Z.lxor (Z.land x y) (Z.land x z)) (Z.land y z).

Definition Sigma0 (x : Z) : Z := Z.lxor (Z.lxor (rotr 2 x) (rotr 13 x)) (rotr 22 x).
Definition Sigma1 (x : Z) : Z := Z.lxor (Z.lxor (rotr 6 x) (rotr 11 x)) (rotr 25 x).
Definition sigma0 (x : Z) : Z := Z.lxor (Z.lxor (rotr 7 x) (rotr 18 x)) (Z.shiftr x 3).
Definition sigma1 (x : Z) : Z := Z.lxor (Z.lxor (rotr 17 x) (rotr 19 x)) (Z.shiftr x 10).

(** The primes up to 311, the first 64. *)
Definition is_prime (n : Z) : bool :=
  (1 <? n) && forallb (λ d, negb (n mod d =? 0)) (seqZ 2 (n - 2)).

Definition primes : list Z := filter (λ n, is_prime n = true) (seqZ 2 310).

(** The largest [r + d] with [d < 2 ^ bits] and [(r + d) ^ k <= n]. *)
Fixpoint root (k : Z) (bits : nat) (n r : Z) : Z :=
  match bits with
  | O => r
  | S b =>
      let r' := r + 2 ^ Z.of_nat b in
      root k b n (if r' ^ k <=? n then r' else r)
  end.

(** The first 32 bits of the fractional part of the [k]-th root of [p]. *)
Definition frac32 (k p : Z) : Z := w32 (root k 36 (p * 2 ^ (32 * k)) 0).

(** The round constants, from the cube roots of the first 64 primes, and
    the initial hash value, from the square roots of the first 8. *)
Definition K : list Z := Eval vm_compute in map (frac32 3) primes.

Definition init : list Z := Eval vm_compute in map (frac32 2) (take 8 primes).

(** Big-endian bytes of a number, [n] of them. *)
Fixpoint be_bytes (n : nat) (x : Z) : list Z :=
  match n with
  | O => []
  | S n' => Z.land (Z.shiftr x (8 * Z.of_nat n')) 255 :: be_bytes n' x
  end.

(** The message, a one bit, zeros up to 56 modulo 64, the length in bits. *)
Definition pad (msg : list Z) : list Z :=
  let len := Z.of_nat (length msg) in
  let zeros := Z.to_nat ((55 - len) mod 64) in
  msg ++ [128] ++ repeat 0 zeros ++ be_bytes 8 (8 * len).

(** Big-endian words of a run of bytes, four bytes a word. *)
Fixpoint words (n : nat) (bs : list Z) : list Z :=
  match n, bs with
  | S n', b0 :: b1 :: b2 :: b3 :: bs' =>
      (Z.shiftl b0 24 + Z.shiftl b1 16 + Z.shiftl b2 8 + b3) :: words n' bs'
  | _, _ => []
  end.

(** The message schedule, latest word first: [w] holds [W(t-1), W(t-2), ...]. *)
Fixpoint schedule (n : nat) (w : list Z) : list Z :=
  match n with
  | O => w
  | S n' =>
      let wt := add32 (add32 (sigma1 (nth 1 w 0)) (nth 6 w 0))
                      (add32 (sigma0 (nth 14 w 0)) (nth 15 w 0)) in
      schedule n' (wt :: w)
  end.

Definition round (s : list Z) (kw : Z * Z) : list Z :=
  match s with
  | [a; b; c; d; e; f; g; h] =>
      let t1 := add32 (add32 (add32 h (Sigma1 e)) (add32 (Ch e f g) (fst kw))) (snd kw) in
      let t2 := add32 (Sigma0 a) (Maj a b c) in
      [add32 t1 t2; a; b; c; add32 d t1; e; f; g]
  | _ => s
  end.

Definition block (h : list Z) (bs : list Z) : list Z :=
  let w := rev (schedule 48 (rev (words 16 bs))) in
  let s := fold_left round (combine K w) h in
  map (λ p, add32 (fst p) (snd p)) (combine h s).

Fixpoint blocks (n : nat) (h : list Z) (bs : list Z) : list Z :=
  match n with
  | O => h
  | S n' => blocks n' (block h (firstn 64 bs)) (skipn 64 bs)
  end.

Definition Sum256 (msg : list Z) : list Z :=
  let padded := pad msg in
  flat_map (be_bytes 4) (blocks (length padded / 64) init padded).

End sha256.

(** ** Instantiations, for the examples *)

(** Modelled from the spec: [resource.ResourceStatus] and its method
    [Live], whose source is not at hand.  "Status: one of {Unspecified,
    Created/Live, Deleted}"; a resource is live when it "has been created
    or updated successfully and exists". *)
Inductive SpecStatus :=
  | SpecUnspecified
  | SpecCreated
  | SpecDeleted.

Global Instance SpecStatus_eq_dec : EqDecision SpecStatus.
Proof. solve_decision. Defined.

Definition SpecLive (s : SpecStatus) : bool :=
  match s with
  | SpecCreated => true
  | SpecUnspecified | SpecDeleted => false
  end.

Definition spec_imports : DeployImports := {|
  ResourceStatus := SpecStatus;
  ResourceStatusUnspecified := SpecUnspecified;
  ResourceStatusDeleted := SpecDeleted;
  Live := SpecLive;
  Sum256 := sha256.Sum256;
  Time := Z;
  TimeZero := 0%Z;
  PluginInfo := string;
|}.

(** The statuses above and one more, for a resource that is neither live
    nor deleted: the old half of a replacement under way. *)
Inductive ReplaceStatus :=
  | ReplUnspecified
  | ReplCreated
  | ReplReplacing
  | ReplDeleted.

Global Instance ReplaceStatus_eq_dec : EqDecision ReplaceStatus.
Proof. solve_decision. Defined.

Definition ReplLive (s : ReplaceStatus) : bool :=
  match s with
  | ReplCreated => true
  | ReplUnspecified | ReplReplacing | ReplDeleted => false
  end.

Definition replace_imports : DeployImports := {|
  ResourceStatus := ReplaceStatus;
  ResourceStatusUnspecified := ReplUnspecified;
  ResourceStatusDeleted := ReplDeleted;
  Live := ReplLive;
  Sum256 := sha256.Sum256;
  Time := Z;
  TimeZero := 0%Z;
  PluginInfo := string;
|}.

Module examples.
Import deploy.

Section Spec.
#[local] Existing Instance spec_imports.

(** A manifest whose cookie is the checksum of its version. *)
Definition manifest1 : Manifest :=
  mkManifest 1700000000%Z (NewMagic (mkManifest 0%Z "" "v3.40.0" [])) "v3.40.0" ["aws"].

(** A stack with a component, and a bucket that is its child and depends
    on it. *)
Definition comp : State := mkState "urn:comp" "" [] SpecCreated.
Definition bucket : State := mkState "urn:bucket" "urn:comp" ["urn:comp"] SpecCreated.

Definition snap_ok : Snapshot State := mkSnapshot "dev" manifest1 [comp; bucket].

(** The child before its parent. *)
Definition snap_child_first : Snapshot State := mkSnapshot "dev" manifest1 [bucket; comp].

(** Two live resources under one URN. *)
Definition snap_two_live : Snapshot State := mkSnapshot "dev" manifest1 [comp; comp].

(** A deleted resource left in the sequence, after a misplaced one. *)
Definition gone : State := mkState "urn:gone" "" [] SpecDeleted.
Definition orphan : State := mkState "urn:orphan" "urn:nowhere" [] SpecCreated.
Definition snap_deleted : Snapshot State := mkSnapshot "dev" manifest1 [comp; gone].
Definition snap_two_faults : Snapshot State :=
  mkSnapshot "dev" manifest1 [comp; orphan; gone].

(** A tampered cookie. *)
Definition manifest_bad : Manifest := mkManifest 1700000000%Z "0000" "v3.40.0" ["aws"].
Definition snap_bad_magic : Snapshot State := mkSnapshot "dev" manifest_bad [gone].

(** No version, no cookie. *)
Definition manifest_blank : Manifest := mkManifest 1700000000%Z "" "" ["aws"].
Definition snap_blank : Snapshot State := mkSnapshot "dev" manifest_blank [comp; bucket].

(** A resource that names itself as its parent. *)
Definition selfish : State := mkState "urn:self" "urn:self" [] SpecCreated.
Definition snap_selfish : Snapshot State := mkSnapshot "dev" manifest1 [comp; selfish].

(** A version and no cookie. *)
Definition manifest_nocookie : Manifest := mkManifest 1700000000%Z "" "v3.40.0" ["aws"].

(** The same snapshot behind pointers, and its store. *)
Definition store1 : gmap loc State := <[1%positive := comp]> (<[2%positive := bucket]> ∅).
Definition snap_ptr : Snapshot loc := mkSnapshot "dev" manifest1 [1%positive; 2%positive].

End Spec.

Section Replace.
#[local] Existing Instance replace_imports.

Definition manifest2 : Manifest :=
  mkManifest 1700000000%Z (NewMagic (mkManifest 0%Z "" "v3.40.0" [])) "v3.40.0" [].

(** A resource being replaced: the old one and the new one share the URN. *)
Definition db_old : State := mkState "urn:db" "" [] ReplReplacing.
Definition db_new : State := mkState "urn:db" "" [] ReplCreated.
Definition snap_replacing : Snapshot State := mkSnapshot "dev" manifest2 [db_old; db_new].

End Replace.
End examples.

Module backend_examples.
Import backend.

(** Plans as lists of step names, changes as a count, the outside world
    as the number of updates applied so far. *)
Definition demo_imports : BackendImports := {|
  Plan := list string;
  ResourceChanges := nat;
  BackendStack := string;
  Ext := nat;
|}.

Section Demo.
#[local] Existing Instance demo_imports.

(** An applier that checks off the first step of the plan it is handed,
    applies an update unless it runs dry, and reports one resource. *)
Definition demo_apply : Applier :=
  λ kind stack op opts w,
    let plans' :=
      match Plan_ (Engine (Opts op)) with
      | Some p => match plans w !! p with
                  | Some steps => <[p := tail steps]> (plans w)
                  | None => plans w
                  end
      | None => plans w
      end in
    let ext' := if DryRun opts then ext w else S (ext w) in
    (mkWorld plans' ext',
     mkApplied (Plan_ (Engine (Opts op))) 1 None
       [mkEvent ResourcePreEvent (ResourcePreEventPayload "aws:s3:Bucket")]).

(** An update with a saved plan, behind pointer 7. *)
Definition op_plan : UpdateOperation :=
  mkUpdateOperation (mkUpdateOptions (mkEngineOptions (Some 7%positive) false true) false false).

(** The same with the preview skipped. *)
Definition op_skip : UpdateOperation :=
  mkUpdateOperation (mkUpdateOptions (mkEngineOptions None false true) false true).

(** The same with auto-approval. *)
Definition op_auto : UpdateOperation :=
  mkUpdateOperation (mkUpdateOptions (mkEngineOptions None false true) true false).

(** An auto-approved update with the saved plan. *)
Definition op_auto_plan : UpdateOperation :=
  mkUpdateOperation (mkUpdateOptions (mkEngineOptions (Some 7%positive) false true) true false).

Definition world0 : World :=
  mkWorld (<[7%positive := ["create bucket"; "update db"]]> ∅) 0.

(** A user who asks for the details and then accepts, one who declines. *)
Definition run_yes : Run := mkRun world0 [AskResponse details; AskResponse yes] [].
Definition run_no : Run := mkRun world0 [AskResponse details; AskResponse no] [].
Definition run_silent : Run := mkRun world0 [] [].
Definition run_accept : Run := mkRun world0 [AskResponse yes] [].

(** An applier whose run fails, and one that returns the plan behind
    pointer 7 as the plan it generated. *)
Definition demo_fail : Applier :=
  λ kind stack op opts w, (w, mkApplied None 0 (Some Bail) []).

Definition demo_generate : Applier :=
  λ kind stack op opts w,
    (mkWorld (plans w) (if DryRun opts then ext w else S (ext w)),
     mkApplied (Some 7%positive) 2 None []).

(** An auto-approved update with no saved plan and [Experimental] set. *)
Definition op_exp : UpdateOperation :=
  mkUpdateOperation (mkUpdateOptions (mkEngineOptions None true true) true false).

End Demo.
End backend_examples.

(** * Properties of the snapshot verifier *)

Section DeployFacts.
Context `{DeployImports}.
Import deploy.

Lemma present_app pre r u :
  present (pre ++ [r]) u ↔ present pre u ∨ URN_ r = u.
Proof.
  unfold present. split.
  - intros (x & Hx & Hu). apply elem_of_app in Hx as [Hx|Hx]; [left; eauto|].
    apply list_elem_of_singleton in Hx. subst x. by right.
  - intros [(x & Hx & Hu) | Hu].
    + exists x. split; [apply elem_of_app; by left | done].
    + exists r. split; [apply elem_of_app; right; by apply list_elem_of_singleton | done].
Qed.

Lemma live_present_app pre r u :
  live_present (pre ++ [r]) u ↔
  live_present pre u ∨ (URN_ r = u ∧ Live (Status r) = true).
Proof.
  unfold live_present. split.
  - intros (x & Hx & Hu & Hl). apply elem_of_app in Hx as [Hx|Hx]; [left; eauto|].
    apply list_elem_of_singleton in Hx. subst x. by right.
  - intros [(x & Hx & Hu & Hl) | [Hu Hl]].
    + exists x. split; [apply elem_of_app; by left | done].
    + exists r. split; [apply elem_of_app; right; by apply list_elem_of_singleton | done].
Qed.

Lemma tracks_nil : tracks [] ∅ ∅.
Proof.
  split; intros u; split.
  - rewrite lookup_empty. by intros [? ?].
  - intros (r & Hr & _). by apply elem_of_nil in Hr.
  - by rewrite lookup_empty.
  - intros (r & Hr & _). by apply elem_of_nil in Hr.
Qed.

Lemma tracks_snoc pre urns seenLive r :
  tracks pre urns seenLive →
  tracks (pre ++ [r]) (record_urn urns r) (record_live seenLive r).
Proof.
  intros [Hu Hl]. split; intros u.
  - rewrite present_app, <- Hu. unfold record_urn.
    destruct (decide (URN_ r = u)) as [->|Hne].
    + rewrite lookup_insert_eq. split; eauto.
    + rewrite lookup_insert_ne by done. split; [by left | by intros [?|?]].
  - rewrite live_present_app, <- Hl. unfold record_live.
    destruct (decide (URN_ r = u)) as [<-|Hne].
    + destruct (seenLive !! URN_ r) as [[|]|] eqn:Hs; rewrite lookup_insert_eq; simpl;
        split; try (intros [= ->]); try (intros [?|[_ ->]]); try done; eauto.
    + destruct (seenLive !! URN_ r); rewrite lookup_insert_ne by done;
        (split; [by left | by intros [?|[? _]]]).
Qed.

(** *** One iteration *)

Section Iteration.
Variables (pre : list State) (urns : gmap URN State) (seenLive : gmap URN bool).
Hypothesis Htracks : tracks pre urns seenLive.

Lemma lookup_urns_None u : urns !! u = None ↔ ¬ present pre u.
Proof. rewrite <- (tracks_urns _ _ _ Htracks), eq_None_not_Some. done. Qed.

Lemma check_parent_None r rest :
  check_parent urns r rest = None ↔ (Parent r ≠ "" → present pre (Parent r)).
Proof.
  unfold check_parent. destruct (decide (Parent r ≠ "")) as [Hp|Hp]; [|done].
  destruct (urns !! Parent r) eqn:Hl.
  - split; [|done]. intros _ _. apply (tracks_urns _ _ _ Htracks). eauto.
  - apply lookup_urns_None in Hl.
    split; [by destruct (comes_after _ _)|]. intros Hpre. by destruct Hl; auto.
Qed.

Lemma check_parent_Some r rest e :
  check_parent urns r rest = Some e → describes e pre r.
Proof.
  unfold check_parent. destruct (decide (Parent r ≠ "")) as [Hp|Hp]; [|done].
  destruct (urns !! Parent r) eqn:Hl; [done|].
  apply lookup_urns_None in Hl.
  destruct (comes_after _ _); intros [= <-]; simpl; auto.
Qed.

Lemma check_dependencies_None urn deps rest :
  check_dependencies urns urn deps rest = None ↔ ∀ d, d ∈ deps → present pre d.
Proof.
  induction deps as [|dep deps IH]; simpl.
  - split; [|done]. intros _ d Hd. by apply elem_of_nil in Hd.
  - destruct (urns !! dep) eqn:Hl.
    + rewrite IH. split.
      * intros Hall d Hd. apply elem_of_cons in Hd as [->|Hd]; [|by auto].
        apply (tracks_urns _ _ _ Htracks). eauto.
      * intros Hall d Hd. apply Hall. apply elem_of_cons. by right.
    + apply lookup_urns_None in Hl. split; [by destruct (comes_after _ _)|].
      intros Hall. destruct Hl. apply Hall. apply elem_of_cons. by left.
Qed.

Lemma check_dependencies_Some urn deps rest e :
  check_dependencies urns urn deps rest = Some e →
  ∃ dep, dep ∈ deps ∧ ¬ present pre dep ∧
         (e = ErrDependencyAfter urn dep ∨ e = ErrDependencyMissing urn dep).
Proof.
  induction deps as [|dep deps IH]; simpl; [done|].
  destruct (urns !! dep) eqn:Hl.
  - intros (d & Hd & Hrest)%IH. exists d. split; [apply elem_of_cons; by right | done].
  - apply lookup_urns_None in Hl. intros He. exists dep.
    split; [apply elem_of_cons; by left|]. split; [done|].
    destruct (comes_after _ _); injection He as <-; auto.
Qed.

Lemma check_status_None r :
  check_status seenLive r = None ↔
  Status r ≠ ResourceStatusUnspecified ∧ Status r ≠ ResourceStatusDeleted ∧
  (Live (Status r) = true → ¬ live_present pre (URN_ r)).
Proof.
  unfold check_status.
  destruct (decide (Status r = ResourceStatusUnspecified)); [intuition congruence|].
  destruct (decide (Status r = ResourceStatusDeleted)); [intuition congruence|].
  rewrite <- (tracks_live _ _ _ Htracks).
  destruct (seenLive !! URN_ r) as [[|]|]; simpl;
    destruct (Live (Status r)); intuition congruence.
Qed.

Lemma check_status_Some r e :
  check_status seenLive r = Some e → describes e pre r.
Proof.
  unfold check_status.
  destruct (decide (Status r = ResourceStatusUnspecified)); [by intros [= <-]|].
  destruct (decide (Status r = ResourceStatusDeleted)); [by intros [= <-]|].
  destruct (seenLive !! URN_ r) as [[|]|] eqn:Hs; simpl; try done.
  destruct (Live (Status r)) eqn:Hl; [|done]. intros [= <-]. simpl.
  repeat split; try done. by apply (tracks_live _ _ _ Htracks).
Qed.

Lemma check_state_None r rest :
  check_state urns seenLive r rest = None ↔ well_placed pre r.
Proof.
  unfold check_state.
  destruct (check_parent urns r rest) eqn:Hp.
  - split; [done|]. intros [Hpar _ _ _ _].
    pose proof (proj2 (check_parent_None r rest) Hpar). congruence.
  - pose proof (proj1 (check_parent_None _ _) Hp) as Hpar.
    destruct (check_dependencies urns (URN_ r) (Dependencies r) rest) eqn:Hd.
    + split; [done|]. intros [_ Hdeps _ _ _].
      pose proof (proj2 (check_dependencies_None (URN_ r) _ rest) Hdeps). congruence.
    + pose proof (proj1 (check_dependencies_None _ _ _) Hd) as Hdeps.
      rewrite check_status_None. split.
      * intros (? & ? & ?). by constructor.
      * intros [_ _ ? ? ?]. auto.
Qed.

Lemma check_state_Some r rest e :
  check_state urns seenLive r rest = Some e → describes e pre r.
Proof.
  unfold check_state.
  destruct (check_parent urns r rest) eqn:Hp.
  - intros [= <-]. by eapply check_parent_Some.
  - destruct (check_dependencies urns (URN_ r) (Dependencies r) rest) eqn:Hd.
    + intros [= <-]. apply check_dependencies_Some in Hd as (d & Hin & Hnp & [-> | ->]);
        simpl; auto.
    + apply check_status_Some.
Qed.

(** Of the invariants broken at a resource, the one reported is the one
    tested first. *)
Lemma check_state_order r rest e e' :
  check_state urns seenLive r rest = Some e →
  describes e' pre r →
  test_order e ≤ test_order e'.
Proof.
  unfold check_state. intros He Hd.
  destruct (check_parent urns r rest) as [e0|] eqn:Hp.
  { injection He as <-. unfold check_parent in Hp.
    destruct (decide (Parent r ≠ "")); [|done].
    destruct (urns !! Parent r); [done|].
    destruct e'; [done|..];
      destruct (comes_after _ _); injection Hp as <-; simpl; lia. }
  pose proof (proj1 (check_parent_None _ _) Hp) as Hpar.
  destruct (check_dependencies urns (URN_ r) (Dependencies r) rest) as [e0|] eqn:Hdeps.
  { injection He as <-.
    apply check_dependencies_Some in Hdeps as (d & _ & _ & [-> | ->]);
      destruct e'; simpl in *; try lia; try done;
      destruct Hd as (_ & -> & Hne & Hnp); by destruct Hnp; auto. }
  pose proof (proj1 (check_dependencies_None _ _ _) Hdeps) as Hall.
  unfold check_status in He.
  destruct (decide (Status r = ResourceStatusUnspecified)) as [Hu|Hu].
  { injection He as <-.
    destruct e'; simpl in *; try lia; try done.
    - destruct Hd as (_ & -> & Hne & Hnp). by destruct Hnp; auto.
    - destruct Hd as (_ & -> & Hne & Hnp). by destruct Hnp; auto.
    - destruct Hd as (_ & Hin & Hnp). by destruct Hnp; auto.
    - destruct Hd as (_ & Hin & Hnp). by destruct Hnp; auto. }
  destruct (decide (Status r = ResourceStatusDeleted)) as [Hdel|Hdel].
  { injection He as <-.
    destruct e'; simpl in *; try lia; try done.
    - destruct Hd as (_ & -> & Hne & Hnp). by destruct Hnp; auto.
    - destruct Hd as (_ & -> & Hne & Hnp). by destruct Hnp; auto.
    - destruct Hd as (_ & Hin & Hnp). by destruct Hnp; auto.
    - destruct Hd as (_ & Hin & Hnp). by destruct Hnp; auto.
    - by destruct Hd. }
  destruct (seenLive !! URN_ r) as [seen|]; [|done].
  destruct (seen && Live (Status r)); [|done]. injection He as <-.
  destruct e'; simpl in *; try lia; try done.
  - destruct Hd as (_ & -> & Hne & Hnp). by destruct Hnp; auto.
  - destruct Hd as (_ & -> & Hne & Hnp). by destruct Hnp; auto.
  - destruct Hd as (_ & Hin & Hnp). by destruct Hnp; auto.
  - destruct Hd as (_ & Hin & Hnp). by destruct Hnp; auto.
  - by destruct Hd.
  - by destruct Hd.
Qed.

End Iteration.

(** An error that describes [r] reports a broken invariant at [r]. *)
Lemma describes_not_well_placed e pre r :
  describes e pre r → ¬ well_placed pre r.
Proof.
  intros Hd [Hpar Hdeps Hu Hdel Hlive]. destruct e; simpl in Hd.
  - done.
  - destruct Hd as (_ & -> & Hne & Hnp). auto.
  - destruct Hd as (_ & -> & Hne & Hnp). auto.
  - destruct Hd as (_ & Hin & Hnp). auto.
  - destruct Hd as (_ & Hin & Hnp). auto.
  - by destruct Hd.
  - by destruct Hd.
  - destruct Hd as (-> & -> & Hl & Hp). by apply Hlive.
Qed.

Lemma describes_error_urn e pre r :
  describes e pre r → error_urn e = Some (URN_ r).
Proof. destruct e; simpl; intuition congruence. Qed.

(** *** The loop *)

Lemma verify_resources_None pre urns seenLive l :
  tracks pre urns seenLive →
  verify_resources urns seenLive l = None ↔
  ∀ i r, l !! i = Some r → well_placed (pre ++ take i l) r.
Proof.
  revert pre urns seenLive.
  induction l as [|a l IH]; intros pre urns seenLive Ht; simpl.
  - split; [|done]. intros _ i r Hr. by rewrite lookup_nil in Hr.
  - destruct (check_state urns seenLive a l) eqn:Hc.
    + split; [done|]. intros Hall.
      specialize (Hall 0 a eq_refl). simpl in Hall. rewrite app_nil_r in Hall.
      pose proof (proj2 (check_state_None _ _ _ Ht a l) Hall). congruence.
    + pose proof (proj1 (check_state_None _ _ _ Ht a l) Hc) as Ha.
      rewrite (IH (pre ++ [a])) by by apply tracks_snoc.
      split.
      * intros Hall [|i] r Hr; simpl in *.
        -- injection Hr as <-. by rewrite app_nil_r.
        -- specialize (Hall i r Hr). by rewrite <- app_assoc in Hall.
      * intros Hall i r Hr. specialize (Hall (S i) r Hr). simpl in Hall.
        by rewrite <- app_assoc.
Qed.

(** The loop stops at the first resource that is not well placed. *)
Lemma verify_resources_first pre urns seenLive l i r :
  tracks pre urns seenLive →
  l !! i = Some r →
  (∀ j r', j < i → l !! j = Some r' → well_placed (pre ++ take j l) r') →
  ¬ well_placed (pre ++ take i l) r →
  ∃ e, verify_resources urns seenLive l = Some e ∧
       describes e (pre ++ take i l) r ∧
       ∀ e', describes e' (pre ++ take i l) r → test_order e ≤ test_order e'.
Proof.
  revert pre urns seenLive i.
  induction l as [|a l IH]; intros pre urns seenLive i Ht Hr Hbefore Hbad.
  - by rewrite lookup_nil in Hr.
  - destruct i as [|i]; simpl in *.
    + injection Hr as ->. rewrite app_nil_r in *.
      destruct (check_state urns seenLive r l) as [e|] eqn:Hc.
      * exists e. split; [done|]. split; [by eapply check_state_Some|].
        intros e' Hd'. by eapply check_state_order.
      * destruct Hbad. by eapply check_state_None.
    + assert (well_placed pre a) as Ha.
      { specialize (Hbefore 0 a ltac:(lia) eq_refl). simpl in Hbefore.
        by rewrite app_nil_r in Hbefore. }
      rewrite (proj2 (check_state_None _ _ _ Ht a l) Ha).
      destruct (IH (pre ++ [a]) (record_urn urns a) (record_live seenLive a) i)
        as (e & He & Hd & Hfirst).
      * by apply tracks_snoc.
      * done.
      * intros j r' Hj Hr'. specialize (Hbefore (S j) r' ltac:(lia) Hr').
        simpl in Hbefore. by rewrite <- app_assoc.
      * by rewrite <- app_assoc.
      * exists e. split; [done|]. rewrite <- app_assoc in Hd, Hfirst. by split.
Qed.

Lemma verify_resources_Some pre urns seenLive l e :
  tracks pre urns seenLive →
  verify_resources urns seenLive l = Some e →
  ∃ i r, l !! i = Some r ∧
    (∀ j r', j < i → l !! j = Some r' → well_placed (pre ++ take j l) r') ∧
    describes e (pre ++ take i l) r.
Proof.
  revert pre urns seenLive.
  induction l as [|a l IH]; intros pre urns seenLive Ht; simpl; [done|].
  destruct (check_state urns seenLive a l) as [e'|] eqn:Hc.
  - intros [= ->]. exists 0, a. split; [done|]. split; [intros; lia|].
    simpl. rewrite app_nil_r. by eapply check_state_Some.
  - intros He. pose proof (proj1 (check_state_None _ _ _ Ht a l) Hc) as Ha.
    destruct (IH (pre ++ [a]) _ _ (tracks_snoc _ _ _ a Ht) He) as (i & r & Hr & Hb & Hd).
    exists (S i), r. split; [done|]. split.
    + intros [|j] r' Hj Hr'; simpl in *.
      * injection Hr' as <-. by rewrite app_nil_r.
      * specialize (Hb j r' ltac:(lia) Hr'). by rewrite <- app_assoc in Hb.
    + simpl. by rewrite <- app_assoc in Hd.
Qed.

(** *** [VerifyIntegrity] as a whole *)

Lemma VerifyIntegrity_None snap :
  VerifyIntegrity snap = None ↔
  Magic (SnapManifest snap) = NewMagic (SnapManifest snap) ∧
  ∀ i r, Resources snap !! i = Some r → well_placed (take i (Resources snap)) r.
Proof.
  unfold VerifyIntegrity.
  destruct (decide (Magic (SnapManifest snap) ≠ NewMagic (SnapManifest snap))) as [Hm|Hm].
  - split; [done|]. by intros [? _].
  - apply dec_stable in Hm.
    rewrite (verify_resources_None [] _ _ _ tracks_nil). simpl. by split; [|intros []].
Qed.

Lemma VerifyIntegrity_Some snap e :
  VerifyIntegrity snap = Some e →
  (e = ErrMagicMismatch ∧ Magic (SnapManifest snap) ≠ NewMagic (SnapManifest snap)) ∨
  (Magic (SnapManifest snap) = NewMagic (SnapManifest snap) ∧
   ∃ i r, Resources snap !! i = Some r ∧
     (∀ j r', j < i → Resources snap !! j = Some r' →
        well_placed (take j (Resources snap)) r') ∧
     describes e (take i (Resources snap)) r).
Proof.
  unfold VerifyIntegrity.
  destruct (decide (Magic (SnapManifest snap) ≠ NewMagic (SnapManifest snap))) as [Hm|Hm].
  - intros [= <-]. by left.
  - apply dec_stable in Hm. intros He. right. split; [done|].
    by apply (verify_resources_Some [] _ _ _ _ tracks_nil) in He.
Qed.

Lemma VerifyIntegrity_first snap i r :
  Magic (SnapManifest snap) = NewMagic (SnapManifest snap) →
  Resources snap !! i = Some r →
  (∀ j r', j < i → Resources snap !! j = Some r' →
     well_placed (take j (Resources snap)) r') →
  ¬ well_placed (take i (Resources snap)) r →
  ∃ e, VerifyIntegrity snap = Some e ∧
       describes e (take i (Resources snap)) r ∧
       ∀ e', describes e' (take i (Resources snap)) r → test_order e ≤ test_order e'.
Proof.
  intros Hm Hr Hb Hbad. unfold VerifyIntegrity.
  destruct (decide (Magic (SnapManifest snap) ≠ NewMagic (SnapManifest snap))); [done|].
  by apply (verify_resources_first [] _ _ _ _ _ tracks_nil).
Qed.

(** [present] on a prefix is [occurs_before]. *)
Lemma present_take (l : list State) i u :
  present (take i l) u ↔ occurs_before l i u.
Proof.
  unfold present, occurs_before. split.
  - intros (r & Hr & Hu). apply elem_of_take in Hr as (j & Hj & Hlt). eauto.
  - intros (j & r & Hlt & Hj & Hu). exists r. split; [|done].
    apply elem_of_take. eauto.
Qed.

Lemma live_present_take (l : list State) i u :
  live_present (take i l) u ↔
  ∃ j r, j < i ∧ l !! j = Some r ∧ URN_ r = u ∧ Live (Status r) = true.
Proof.
  unfold live_present. split.
  - intros (r & Hr & Hu & Hl). apply elem_of_take in Hr as (j & Hj & Hlt). eauto 6.
  - intros (j & r & Hlt & Hj & Hu & Hl). exists r. split; [|done].
    apply elem_of_take. eauto.
Qed.

Lemma well_placed_everywhere (rs : list State) :
  (∀ i r, rs !! i = Some r → well_placed (take i rs) r) ↔
  ordered rs ∧ statuses_valid rs ∧ one_live_per_URN rs.
Proof.
  split.
  - intros Hall. split; [|split].
    + intros i r Hr. destruct (Hall i r Hr) as [Hp Hd _ _ _]. split.
      * intros Hne. by apply present_take, Hp.
      * intros d Hin. by apply present_take, Hd.
    + intros r Hin. apply list_elem_of_lookup in Hin as [i Hr].
      by destruct (Hall i r Hr).
    + assert (∀ i j ri rj, i < j → rs !! i = Some ri → rs !! j = Some rj →
                URN_ ri = URN_ rj → Live (Status ri) = true →
                Live (Status rj) = true → False) as Hlt.
      { intros i j ri rj Hij Hi Hj Hu Hli Hlj.
        destruct (Hall j rj Hj) as [_ _ _ _ Hl]. apply (Hl Hlj).
        apply live_present_take. eauto 8. }
      intros i j ri rj Hi Hj Hu Hli Hlj.
      destruct (Nat.lt_trichotomy i j) as [Hij|[Hij|Hij]]; [|done|].
      * destruct (Hlt i j ri rj); auto.
      * destruct (Hlt j i rj ri); auto.
  - intros (Hord & Hst & Hone) i r Hr.
    destruct (Hord i r Hr) as [Hp Hd].
    destruct (Hst r) as [Hu Hdel]; [by eapply list_elem_of_lookup_2|].
    constructor; try done.
    + intros Hne. by apply present_take, Hp.
    + intros d Hin. by apply present_take, Hd.
    + intros Hl (j & rj & Hlt & Hj & Hurn & Hlj)%live_present_take.
      specialize (Hone j i rj r Hj Hr Hurn Hlj Hl). lia.
Qed.

(** [VerifyIntegrity] accepts a snapshot exactly when the five invariants
    hold of it. *)
Lemma VerifyIntegrity_accepts snap :
  VerifyIntegrity snap = None ↔
  Magic (SnapManifest snap) = NewMagic (SnapManifest snap) ∧
  ordered (Resources snap) ∧ statuses_valid (Resources snap) ∧
  one_live_per_URN (Resources snap).
Proof. by rewrite VerifyIntegrity_None, well_placed_everywhere. Qed.

(** ** The claims on [VerifyIntegrity] and [NewMagic] *)

(** C1. In a snapshot that [VerifyIntegrity] accepts, the parent of every
    resource (when it has one) and each of its dependencies stand at a
    strictly lower index than the resource; and a snapshot with a resource
    whose parent or one of whose dependencies does not stand strictly
    earlier is rejected with an error. *)
Theorem VerifyIntegrity_parents_dependencies_earlier (snap : Snapshot State) :
  (VerifyIntegrity snap = None →
   ∀ i r, Resources snap !! i = Some r →
     (Parent r ≠ "" → occurs_before (Resources snap) i (Parent r)) ∧
     (∀ d, d ∈ Dependencies r → occurs_before (Resources snap) i d))
  ∧
  (∀ i r, Resources snap !! i = Some r →
     (Parent r ≠ "" ∧ ¬ occurs_before (Resources snap) i (Parent r)) ∨
     (∃ d, d ∈ Dependencies r ∧ ¬ occurs_before (Resources snap) i d) →
     VerifyIntegrity snap ≠ None).
Proof.
  split.
  - intros Hok. apply VerifyIntegrity_accepts in Hok as (_ & Hord & _). exact Hord.
  - intros i r Hr Hbad Hok.
    apply VerifyIntegrity_accepts in Hok as (_ & Hord & _).
    destruct (Hord i r Hr) as [Hp Hd].
    destruct Hbad as [[Hne Hno] | (d & Hin & Hno)]; auto.
Qed.

(** C2. In a snapshot that [VerifyIntegrity] accepts, at most one resource
    per URN is live; a snapshot with two live resources under one URN is
    rejected with an error; the error for a live duplicate is given only
    when two resources with that URN are live, and a snapshot that keeps
    the other invariants and has at most one live resource per URN is
    accepted, whatever URNs repeat in it. *)
Theorem VerifyIntegrity_one_live_per_URN (snap : Snapshot State) :
  (VerifyIntegrity snap = None → one_live_per_URN (Resources snap))
  ∧
  (∀ i j ri rj, i ≠ j →
     Resources snap !! i = Some ri → Resources snap !! j = Some rj →
     URN_ ri = URN_ rj → Live (Status ri) = true → Live (Status rj) = true →
     VerifyIntegrity snap ≠ None)
  ∧
  (∀ urn status, VerifyIntegrity snap = Some (ErrDuplicateLive urn status) →
     ∃ i j ri rj, i < j ∧
       Resources snap !! i = Some ri ∧ Resources snap !! j = Some rj ∧
       URN_ ri = urn ∧ URN_ rj = urn ∧
       Live (Status ri) = true ∧ Live (Status rj) = true)
  ∧
  (Magic (SnapManifest snap) = NewMagic (SnapManifest snap) →
   ordered (Resources snap) → statuses_valid (Resources snap) →
   one_live_per_URN (Resources snap) →
   VerifyIntegrity snap = None).
Proof.
  split; [|split; [|split]].
  - intros Hok. by apply VerifyIntegrity_accepts in Hok as (_ & _ & _ & Hone).
  - intros i j ri rj Hij Hi Hj Hu Hli Hlj Hok.
    apply VerifyIntegrity_accepts in Hok as (_ & _ & _ & Hone).
    by specialize (Hone i j ri rj Hi Hj Hu Hli Hlj).
  - intros urn status He.
    apply VerifyIntegrity_Some in He as [[? _] | (_ & j & rj & Hj & _ & Hd)]; [done|].
    simpl in Hd. destruct Hd as (-> & -> & Hlj & Hlp).
    apply live_present_take in Hlp as (i & ri & Hlt & Hi & Hu & Hli).
    exists i, j, ri, rj. auto 10.
  - intros Hm Hord Hst Hone. by apply VerifyIntegrity_accepts.
Qed.

(** C4. [VerifyIntegrity] stops at the first broken invariant and returns
    that one error: a cookie that does not match is reported whatever the
    resources are; otherwise the error names the resource of lowest index
    that breaks an invariant, and reports the invariant broken there that
    is tested first. *)
Theorem VerifyIntegrity_fail_fast (snap : Snapshot State) :
  (Magic (SnapManifest snap) ≠ NewMagic (SnapManifest snap) →
   VerifyIntegrity snap = Some ErrMagicMismatch)
  ∧
  (Magic (SnapManifest snap) = NewMagic (SnapManifest snap) →
   ∀ i r, Resources snap !! i = Some r →
     ¬ well_placed (take i (Resources snap)) r →
     (∀ j r', j < i → Resources snap !! j = Some r' →
        well_placed (take j (Resources snap)) r') →
     ∃ e, VerifyIntegrity snap = Some e ∧
          error_urn e = Some (URN_ r) ∧
          describes e (take i (Resources snap)) r ∧
          ∀ e', describes e' (take i (Resources snap)) r →
                test_order e ≤ test_order e').
Proof.
  split.
  - intros Hm. unfold VerifyIntegrity. by rewrite decide_True.
  - intros Hm i r Hr Hbad Hbefore.
    destruct (VerifyIntegrity_first snap i r Hm Hr Hbefore Hbad) as (e & He & Hd & Hfirst).
    exists e. split; [done|]. split; [by eapply describes_error_urn|]. by split.
Qed.

(** C5. [VerifyIntegrity] returns an error when some resource of the
    sequence has status [Unspecified] or [Deleted]; and when no resource
    has one of these statuses, the error it returns, if any, is not one of
    the two status errors. *)
Theorem VerifyIntegrity_status (snap : Snapshot State) :
  (∀ i r, Resources snap !! i = Some r →
     Status r = ResourceStatusUnspecified ∨ Status r = ResourceStatusDeleted →
     VerifyIntegrity snap ≠ None)
  ∧
  (statuses_valid (Resources snap) →
   ∀ urn, VerifyIntegrity snap ≠ Some (ErrStatusUnspecified urn) ∧
          VerifyIntegrity snap ≠ Some (ErrStatusDeleted urn)).
Proof.
  split.
  - intros i r Hr Hst Hok.
    apply VerifyIntegrity_accepts in Hok as (_ & _ & Hvalid & _).
    destruct (Hvalid r) as [Hu Hd]; [by eapply list_elem_of_lookup_2|].
    by destruct Hst.
  - intros Hvalid urn. split; intros He;
      apply VerifyIntegrity_Some in He as [[? _] | (_ & i & r & Hr & _ & Hd)]; try done;
      destruct (Hvalid r) as [Hu Hdel]; try (by eapply list_elem_of_lookup_2);
      simpl in Hd; by destruct Hd.
Qed.

(** C6. [NewMagic] is a function of the [Version] field alone: manifests
    with equal versions get equal checksums, whatever their [Magic],
    [Time] and [Plugins]; in particular storing the checksum in the
    manifest and computing it again gives the same checksum. *)
Theorem NewMagic_deterministic (m1 m2 : Manifest) :
  (Version m1 = Version m2 → NewMagic m1 = NewMagic m2)
  ∧
  (∀ time magic plugins,
     NewMagic (mkManifest time magic (Version m1) plugins) = NewMagic m1)
  ∧
  NewMagic (mkManifest (Time_ m1) (NewMagic m1) (Version m1) (Plugins m1)) = NewMagic m1.
Proof.
  unfold NewMagic. simpl. split; [|done]. by intros ->.
Qed.

(** C10. A manifest with an empty [Version] has the empty checksum; so
    for a snapshot whose manifest has an empty [Version] and an empty
    [Magic] the cookie test passes, and [VerifyIntegrity] is the check of
    the resources alone. *)
Theorem NewMagic_empty_version (snap : Snapshot State) :
  Version (SnapManifest snap) = "" →
  NewMagic (SnapManifest snap) = "" ∧
  (Magic (SnapManifest snap) = "" →
   VerifyIntegrity snap ≠ Some ErrMagicMismatch ∧
   VerifyIntegrity snap = verify_resources ∅ ∅ (Resources snap)).
Proof.
  intros Hv.
  assert (NewMagic (SnapManifest snap) = "") as Hn.
  { unfold NewMagic. by rewrite decide_True. }
  split; [done|]. intros Hm.
  assert (VerifyIntegrity snap = verify_resources ∅ ∅ (Resources snap)) as Hvi.
  { unfold VerifyIntegrity. rewrite decide_False; [done|]. rewrite Hm, Hn. auto. }
  split; [|done]. intros He.
  apply VerifyIntegrity_Some in He as [[_ Hne] | (_ & i & r & _ & _ & Hd)]; [|done].
  apply Hne. by rewrite Hm, Hn.
Qed.

(** ** [Clone] *)

Lemma states_insert_notin (σ : gmap loc State) l st (ls : list loc) :
  l ∉ ls → mapM (λ x, <[l := st]> σ !! x) ls = mapM (λ x, σ !! x) ls.
Proof.
  induction ls as [|x ls IH]; [done|].
  intros Hnin. apply not_elem_of_cons in Hnin as [Hne Hnin].
  simpl. rewrite lookup_insert_ne by done. by rewrite IH.
Qed.

Lemma states_valid (σ : gmap loc State) (ls : list loc) sts :
  mapM (λ x, σ !! x) ls = Some sts → ∀ l, l ∈ ls → l ∈ dom σ.
Proof.
  intros Hm l Hin. apply mapM_Some in Hm.
  apply list_elem_of_lookup in Hin as [i Hi].
  destruct (Forall2_lookup_l _ _ _ _ _ Hm Hi) as (st & _ & Hst).
  apply elem_of_dom. eauto.
Qed.

(** The loop of [Clone] allocates one new object per pointer, holding the
    state behind that pointer, and leaves every object it found alone. *)
Lemma clone_resources_spec (σ : gmap loc State) rs acc sts :
  mapM (λ x, σ !! x) rs = Some sts →
  ∃ news σ',
    clone_resources σ rs acc = Some (acc ++ news, σ') ∧
    σ ⊆ σ' ∧
    (∀ l, l ∈ news → l ∉ dom σ) ∧
    mapM (λ x, σ' !! x) news = Some sts.
Proof.
  revert σ acc sts. induction rs as [|res rest IH]; intros σ acc sts Hm.
  - simpl in Hm. injection Hm as <-. exists [], σ. rewrite app_nil_r.
    repeat split; try done. intros l Hl. by apply elem_of_nil in Hl.
  - simpl in Hm. destruct (σ !! res) as [st|] eqn:Hres; [|done]. simpl in Hm.
    destruct (mapM (λ x, σ !! x) rest) as [sts'|] eqn:Hrest; [|done].
    injection Hm as <-.
    set (l := fresh (dom σ)).
    assert (l ∉ dom σ) as Hfresh by apply is_fresh.
    assert (σ !! l = None) as Hnone by by apply not_elem_of_dom.
    assert (mapM (λ x, <[l := st]> σ !! x) rest = Some sts') as Hrest'.
    { rewrite states_insert_notin; [done|].
      intros Hin. apply Hfresh. by eapply states_valid. }
    destruct (IH (<[l := st]> σ) (acc ++ [l]) sts' Hrest')
      as (news & σ' & Hc & Hsub & Hnew & Hst).
    exists (l :: news), σ'. split; [|split; [|split]].
    + simpl. unfold State_Clone. rewrite Hres. simpl. fold l.
      by rewrite Hc, <- app_assoc.
    + etrans; [|exact Hsub]. by apply insert_subseteq.
    + intros x [->|Hx]%elem_of_cons; [done|].
      intros Hd. apply (Hnew x Hx). rewrite dom_insert. set_solver.
    + simpl. rewrite (lookup_weaken _ _ _ _ (lookup_insert_eq σ l st) Hsub). simpl.
      by rewrite Hst.
Qed.

(** What [Clone] copies: for a snapshot whose pointers are valid, [Clone]
    returns; the clone has the [Stack] of the original and new objects
    that hold the states of the original, and a write through a pointer
    of either snapshot leaves the states of the other as they were. *)
Lemma Clone_copies_resources (σ : gmap loc State) (snap : Snapshot loc) sts :
  states σ snap = Some sts →
  ∃ c σ',
    Clone σ snap = Some (c, σ') ∧
    Stack c = Stack snap ∧
    states σ' c = Some sts ∧ states σ' snap = Some sts ∧
    (∀ l, l ∈ Resources c → l ∉ Resources snap) ∧
    (∀ l st, l ∈ Resources snap → states (<[l := st]> σ') c = Some sts) ∧
    (∀ l st, l ∈ Resources c → states (<[l := st]> σ') snap = Some sts).
Proof.
  unfold states. intros Hm.
  destruct (clone_resources_spec σ (Resources snap) [] sts Hm)
    as (news & σ' & Hc & Hsub & Hnew & Hst).
  assert (∀ l, l ∈ news → l ∉ Resources snap) as Hdisj.
  { intros l Hl Hin. apply (Hnew l Hl). by eapply states_valid. }
  assert (mapM (λ x, σ' !! x) (Resources snap) = Some sts) as Hold.
  { apply mapM_Some. apply mapM_Some in Hm.
    eapply Forall2_impl; [exact Hm|]. intros x y Hx. simpl in *.
    by eapply lookup_weaken. }
  exists (mkSnapshot (Stack snap) zeroManifest news), σ'.
  unfold Clone. rewrite Hc. simpl.
  repeat split; try done.
  - intros l st Hl. rewrite states_insert_notin; [done|]. intros Hin. by eapply Hdisj.
  - intros l st Hl. rewrite states_insert_notin; [done|]. by apply Hdisj.
Qed.

(** The manifest of a clone is the zero manifest. *)
Lemma Clone_Manifest (σ : gmap loc State) (snap c : Snapshot loc) σ' :
  Clone σ snap = Some (c, σ') → SnapManifest c = zeroManifest.
Proof.
  unfold Clone. destruct (clone_resources σ (Resources snap) []) as [[rs σ'']|]; [|done].
  by intros [= <- _].
Qed.

(** ** More on [VerifyIntegrity] *)

Lemma comes_after_true u (rest : list State) :
  comes_after u rest = true ↔ ∃ r, r ∈ rest ∧ URN_ r = u.
Proof.
  unfold comes_after. induction rest as [|a rest IH]; simpl.
  - split; [done|]. intros (r & Hr & _). by apply elem_of_nil in Hr.
  - rewrite orb_true_iff, IH, bool_decide_eq_true. split.
    + intros [Ha | (r & Hr & Hu)].
      * exists a. split; [apply elem_of_cons; by left | done].
      * exists r. split; [apply elem_of_cons; by right | done].
    + intros (r & [-> | Hr]%elem_of_cons & Hu); [by left | right; eauto].
Qed.

Lemma elem_of_drop_S (l : list State) i u :
  (∃ r, r ∈ drop (S i) l ∧ URN_ r = u) ↔ occurs_after l i u.
Proof.
  unfold occurs_after. split.
  - intros (r & Hr & Hu). apply list_elem_of_lookup in Hr as [k Hk].
    rewrite lookup_drop in Hk. exists (S i + k), r. split; [lia | done].
  - intros (j & r & Hlt & Hj & Hu). exists r. split; [|done].
    apply list_elem_of_lookup. exists (j - S i). rewrite lookup_drop.
    by replace (S i + (j - S i)) with j by lia.
Qed.

(** The error for a parent or a dependency tells apart the URN that comes
    later in the rest of the sequence and the URN that does not. *)
Lemma check_state_located pre urns seenLive r rest e :
  tracks pre urns seenLive →
  check_state urns seenLive r rest = Some e →
  match e with
  | ErrParentAfter urn u | ErrDependencyAfter urn u =>
      urn = URN_ r ∧ comes_after u rest = true ∧ ¬ present pre u
  | ErrParentMissing urn u | ErrDependencyMissing urn u =>
      urn = URN_ r ∧ comes_after u rest = false ∧ ¬ present pre u
  | _ => True
  end.
Proof.
  intros Ht. unfold check_state.
  destruct (check_parent urns r rest) as [e0|] eqn:Hp.
  { intros [= <-]. unfold check_parent in Hp.
    destruct (decide (Parent r ≠ "")); [|done].
    destruct (urns !! Parent r) eqn:Hl; [done|].
    apply (lookup_urns_None _ _ _ Ht) in Hl.
    destruct (comes_after (Parent r) rest) eqn:Hca; by injection Hp as <-. }
  destruct (check_dependencies urns (URN_ r) (Dependencies r) rest) as [e0|] eqn:Hd.
  { intros [= <-]. clear Hp. revert Hd.
    induction (Dependencies r) as [|dep deps IH]; simpl; [done|].
    destruct (urns !! dep) eqn:Hl; [exact IH|].
    apply (lookup_urns_None _ _ _ Ht) in Hl.
    destruct (comes_after dep rest) eqn:Hca; by intros [= <-]. }
  unfold check_status.
  destruct (decide _); [by intros [= <-]|].
  destruct (decide _); [by intros [= <-]|].
  destruct (seenLive !! URN_ r) as [seen|]; [|done].
  destruct (seen && Live (Status r)); [|done]. by intros [= <-].
Qed.

Lemma verify_resources_located pre urns seenLive l e :
  tracks pre urns seenLive →
  verify_resources urns seenLive l = Some e →
  ∃ i r, l !! i = Some r ∧
    match e with
    | ErrParentAfter urn u | ErrDependencyAfter urn u =>
        urn = URN_ r ∧ comes_after u (drop (S i) l) = true ∧
        ¬ present (pre ++ take i l) u
    | ErrParentMissing urn u | ErrDependencyMissing urn u =>
        urn = URN_ r ∧ comes_after u (drop (S i) l) = false ∧
        ¬ present (pre ++ take i l) u
    | _ => True
    end.
Proof.
  revert pre urns seenLive.
  induction l as [|a l IH]; intros pre urns seenLive Ht; simpl; [done|].
  destruct (check_state urns seenLive a l) as [e'|] eqn:Hc.
  - intros [= ->]. exists 0, a. split; [done|].
    pose proof (check_state_located _ _ _ _ _ _ Ht Hc) as Hloc.
    simpl. rewrite app_nil_r. exact Hloc.
  - intros He.
    destruct (IH (pre ++ [a]) _ _ (tracks_snoc _ _ _ a Ht) He) as (i & r & Hr & Hloc).
    exists (S i), r. split; [done|]. simpl.
    by rewrite <- app_assoc in Hloc.
Qed.

(** The sequence is accepted exactly when the five invariants hold. *)
Theorem VerifyIntegrity_sound_and_complete (snap : Snapshot State) :
  VerifyIntegrity snap = None ↔
  Magic (SnapManifest snap) = NewMagic (SnapManifest snap) ∧
  ordered (Resources snap) ∧ statuses_valid (Resources snap) ∧
  one_live_per_URN (Resources snap).
Proof. apply VerifyIntegrity_accepts. Qed.

(** "Comes after it" is said of a URN that stands later in the sequence
    and not earlier; "missing" of a URN that stands at no other index
    than that of the resource itself. *)
Theorem VerifyIntegrity_after_or_missing (snap : Snapshot State) e :
  VerifyIntegrity snap = Some e → located e (Resources snap).
Proof.
  unfold VerifyIntegrity.
  destruct (decide _); [by intros [= <-]|]. intros He.
  apply (verify_resources_located [] _ _ _ _ tracks_nil) in He as (i & r & Hr & Hloc).
  simpl in Hloc.
  destruct e; simpl; try done; destruct Hloc as (-> & Hca & Hnp);
    exists i, r; (split; [done|]); (split; [done|]);
    rewrite present_take in Hnp; (split; [|done]).
  - by apply elem_of_drop_S, comes_after_true.
  - intros Hafter%elem_of_drop_S%comes_after_true. congruence.
  - by apply elem_of_drop_S, comes_after_true.
  - intros Hafter%elem_of_drop_S%comes_after_true. congruence.
Qed.

(** Every prefix of an accepted sequence is accepted. *)
Theorem VerifyIntegrity_prefix (snap : Snapshot State) n :
  VerifyIntegrity snap = None →
  VerifyIntegrity (mkSnapshot (Stack snap) (SnapManifest snap) (take n (Resources snap)))
  = None.
Proof.
  rewrite !VerifyIntegrity_None. simpl. intros [Hm Hall]. split; [done|].
  intros i r Hr. apply lookup_take_Some in Hr as [Hr Hlt].
  rewrite take_take. replace (i `min` n) with i by lia. by apply Hall.
Qed.

(** A sequence with one more resource at its end is accepted exactly when
    the sequence is and the resource is well placed after it. *)
Theorem VerifyIntegrity_append (snap : Snapshot State) r :
  VerifyIntegrity (mkSnapshot (Stack snap) (SnapManifest snap) (Resources snap ++ [r]))
  = None ↔
  VerifyIntegrity snap = None ∧ well_placed (Resources snap) r.
Proof.
  rewrite !VerifyIntegrity_None. simpl. split.
  - intros [Hm Hall]. split; [split; [done|]|].
    + intros i x Hx. pose proof (lookup_lt_Some _ _ _ Hx) as Hlt.
      specialize (Hall i x). rewrite lookup_app_l in Hall by done.
      rewrite take_app_le in Hall by lia. by apply Hall.
    + specialize (Hall (length (Resources snap)) r).
      rewrite take_app_length in Hall. apply Hall.
      rewrite lookup_app_r by lia. by rewrite Nat.sub_diag.
  - intros [[Hm Hall] Hr]. split; [done|]. intros i x Hx.
    destruct (decide (i < length (Resources snap))) as [Hlt|Hge].
    + rewrite lookup_app_l in Hx by done. rewrite take_app_le by lia. by apply Hall.
    + rewrite lookup_app_r in Hx by lia.
      destruct (i - length (Resources snap)) as [|k] eqn:Hk; [|by destruct k].
      injection Hx as <-. assert (i = length (Resources snap)) as -> by lia.
      by rewrite take_app_length.
Qed.

Lemma lookup_delete_shift (l : list State) k i :
  delete k l !! i = l !! (if decide (i < k) then i else S i).
Proof.
  destruct (decide (i < k)); [by apply list_lookup_delete_lt | apply list_lookup_delete_ge; lia].
Qed.

(** Taking out a resource that no resource names as its parent or as a
    dependency leaves an accepted sequence accepted. *)
Theorem VerifyIntegrity_delete_unreferenced (snap : Snapshot State) k rk :
  VerifyIntegrity snap = None →
  Resources snap !! k = Some rk →
  (∀ r, r ∈ Resources snap →
     (Parent r ≠ "" → Parent r ≠ URN_ rk) ∧ URN_ rk ∉ Dependencies r) →
  VerifyIntegrity (mkSnapshot (Stack snap) (SnapManifest snap) (delete k (Resources snap)))
  = None.
Proof.
  rewrite !VerifyIntegrity_accepts. simpl.
  intros (Hm & Hord & Hst & Hone) Hk Hleaf. split; [done|].
  assert (∀ i u, occurs_before (Resources snap) (if decide (i < k) then i else S i) u →
                 u ≠ URN_ rk → occurs_before (delete k (Resources snap)) i u) as Hshift.
  { intros i u (j & r' & Hlt & Hj & Hu) Hne.
    assert (j ≠ k) as Hjk. { intros ->. rewrite Hk in Hj. injection Hj as <-. congruence. }
    exists (if decide (j < k) then j else j - 1), r'. split; [|split; [|done]].
    - repeat case_decide; lia.
    - rewrite lookup_delete_shift. rewrite <- Hj. f_equal. repeat case_decide; lia. }
  split; [|split].
  - intros i r Hr. rewrite lookup_delete_shift in Hr.
    destruct (Hord _ r Hr) as [Hp Hd].
    destruct (Hleaf r) as [Hlp Hld]; [by eapply list_elem_of_lookup_2|].
    split.
    + intros Hne. apply Hshift; auto.
    + intros d Hin. apply Hshift; [auto|]. intros ->. done.
  - intros r Hin. apply Hst. apply list_elem_of_lookup in Hin as [i Hi].
    rewrite lookup_delete_shift in Hi. by eapply list_elem_of_lookup_2.
  - intros i j ri rj Hi Hj Hu Hli Hlj. rewrite lookup_delete_shift in Hi, Hj.
    specialize (Hone _ _ ri rj Hi Hj Hu Hli Hlj). repeat case_decide; lia.
Qed.

(** ** More on [NewMagic] *)

Lemma Sprintf_x_length bs : String.length (Sprintf_x bs) = 2 * length bs.
Proof. induction bs as [|b bs IH]; simpl; [done|]. rewrite IH. lia. Qed.

Lemma hexdigit_inj d1 d2 :
  (0 ≤ d1 < 16)%Z → (0 ≤ d2 < 16)%Z → hexdigit d1 = hexdigit d2 → d1 = d2.
Proof.
  intros H1 H2.
  assert (d1 = 0 ∨ d1 = 1 ∨ d1 = 2 ∨ d1 = 3 ∨ d1 = 4 ∨ d1 = 5 ∨ d1 = 6 ∨ d1 = 7 ∨
          d1 = 8 ∨ d1 = 9 ∨ d1 = 10 ∨ d1 = 11 ∨ d1 = 12 ∨ d1 = 13 ∨ d1 = 14 ∨ d1 = 15)%Z
    as Hd1 by lia.
  assert (d2 = 0 ∨ d2 = 1 ∨ d2 = 2 ∨ d2 = 3 ∨ d2 = 4 ∨ d2 = 5 ∨ d2 = 6 ∨ d2 = 7 ∨
          d2 = 8 ∨ d2 = 9 ∨ d2 = 10 ∨ d2 = 11 ∨ d2 = 12 ∨ d2 = 13 ∨ d2 = 14 ∨ d2 = 15)%Z
    as Hd2 by lia.
  clear H1 H2.
  repeat (destruct Hd1 as [-> | Hd1]); try subst d1;
    repeat (destruct Hd2 as [-> | Hd2]); try subst d2;
    simpl; intros Heq; first [reflexivity | discriminate Heq].
Qed.

(** On bytes, [%x] loses nothing. *)
Lemma Sprintf_x_inj bs1 bs2 :
  Forall (λ b, 0 ≤ b < 256)%Z bs1 → Forall (λ b, 0 ≤ b < 256)%Z bs2 →
  Sprintf_x bs1 = Sprintf_x bs2 → bs1 = bs2.
Proof.
  intros H1. revert bs2. induction H1 as [|b1 bs1 Hb1 _ IH]; intros bs2 H2.
  - destruct bs2; [done|]. simpl. discriminate.
  - destruct H2 as [|b2 bs2 Hb2 H2]; simpl; [discriminate|].
    intros [= Hhi Hlo Hrest].
    apply hexdigit_inj in Hhi; [|split; [apply Z.mod_pos_bound|apply Z.mod_pos_bound]; lia..].
    apply hexdigit_inj in Hlo; [|split; [apply Z.mod_pos_bound|apply Z.mod_pos_bound]; lia..].
    f_equal; [|by apply IH].
    rewrite (Z.div_mod b1 16), (Z.div_mod b2 16) by lia.
    rewrite (Z.mod_small (b1 / 16) 16) in Hhi
      by (split; [apply Z.div_pos; lia | apply Z.div_lt_upper_bound; lia]).
    rewrite (Z.mod_small (b2 / 16) 16) in Hhi
      by (split; [apply Z.div_pos; lia | apply Z.div_lt_upper_bound; lia]).
    lia.
Qed.

(** With digests of 32 bytes, the cookie of a manifest with a version has
    64 characters; so a snapshot whose manifest has a version and an
    empty cookie is rejected for its cookie, whatever its resources. *)
Theorem NewMagic_nonempty_version (m : Manifest) :
  (∀ bs, length (Sum256 bs) = 32) →
  Version m ≠ "" →
  String.length (NewMagic m) = 64 ∧
  (Magic m = "" →
   ∀ stack (rs : list State), VerifyIntegrity (mkSnapshot stack m rs) = Some ErrMagicMismatch).
Proof.
  intros Hlen Hv.
  assert (String.length (NewMagic m) = 64) as H64.
  { unfold NewMagic. rewrite decide_False by done. by rewrite Sprintf_x_length, Hlen. }
  split; [done|]. intros Hm stack rs. unfold VerifyIntegrity. simpl.
  rewrite decide_True; [done|]. rewrite Hm. intros Heq. by rewrite <- Heq in H64.
Qed.

(** With digests made of bytes, two manifests with versions have the
    same cookie only when their versions have the same digest. *)
Theorem NewMagic_same_cookie_same_digest (m1 m2 : Manifest) :
  (∀ bs, Forall (λ b, 0 ≤ b < 256)%Z (Sum256 bs)) →
  Version m1 ≠ "" → Version m2 ≠ "" →
  NewMagic m1 = NewMagic m2 →
  Sum256 (bytes_of_string (Version m1)) = Sum256 (bytes_of_string (Version m2)).
Proof.
  intros Hbytes H1 H2. unfold NewMagic. rewrite !decide_False by done.
  by apply Sprintf_x_inj.
Qed.

(** ** [Clone], then [VerifyIntegrity] *)

(** The clone of a snapshot with valid pointers holds the states of the
    original; its cookie test passes whatever the manifest of the original
    was, its verification is that of the resources alone, and the clone
    of an accepted snapshot is accepted. *)
Theorem Clone_then_VerifyIntegrity (σ : gmap loc State) (snap : Snapshot loc) orig :
  deref σ snap = Some orig →
  ∃ c σ' cv,
    Clone σ snap = Some (c, σ') ∧ deref σ' c = Some cv ∧
    Resources cv = Resources orig ∧
    VerifyIntegrity cv = verify_resources ∅ ∅ (Resources orig) ∧
    VerifyIntegrity cv ≠ Some ErrMagicMismatch ∧
    (VerifyIntegrity orig = None → VerifyIntegrity cv = None).
Proof.
  unfold deref, states. intros Hd.
  destruct (mapM (λ l, σ !! l) (Resources snap)) as [sts|] eqn:Hm; [|done].
  injection Hd as <-.
  destruct (clone_resources_spec σ (Resources snap) [] sts Hm)
    as (news & σ' & Hc & _ & _ & Hst).
  exists (mkSnapshot (Stack snap) zeroManifest news), σ',
         (mkSnapshot (Stack snap) zeroManifest sts).
  unfold Clone. rewrite Hc. cbn [app Resources Stack SnapManifest]. rewrite Hst.
  assert (VerifyIntegrity (mkSnapshot (Stack snap) zeroManifest sts)
          = verify_resources ∅ ∅ sts) as Hv.
  { unfold VerifyIntegrity, NewMagic, zeroManifest. cbn [SnapManifest Magic Version Resources].
    destruct (decide ("" = "")) as [_|Hne]; [|by destruct Hne].
    destruct (decide ("" ≠ "")) as [Hne|_]; [by destruct Hne | done]. }
  repeat split; try done.
  - intros He. apply VerifyIntegrity_Some in He as [[_ Hne] | (_ & i & r & _ & _ & Hdesc)];
      [by apply Hne | done].
  - rewrite Hv. intros Hok. apply VerifyIntegrity_None in Hok as [_ Hall].
    by apply (verify_resources_None [] _ _ _ tracks_nil).
Qed.

End DeployFacts.

(** * Properties of the preview/confirm/apply protocol *)

Section BackendFacts.
Context `{BackendImports}.
Import backend.

Lemma call_run apply kind stack op opts r :
  call apply kind stack op opts r =
  Some ((apply kind stack op opts (world r)).2,
        mkRun (apply kind stack op opts (world r)).1 (answers r)
              (trace r ++ [ActApply kind op opts (seen_plan (world r) op)])).
Proof. unfold call. by destruct (apply kind stack op opts (world r)). Qed.

(** The loop of [confirmBeforeUpdating] prompts, consumes an answer, and
    calls no applier. *)
Lemma confirm_loop_acts kind events opts pending res rest acts :
  confirm_loop kind events opts pending = Some (res, rest, acts) →
  Forall (λ a, is_real a = false) acts ∧
  (∃ acts', acts = ActPrompt kind (choices opts) no :: acts') ∧
  length rest < length pending.
Proof.
  revert res rest acts.
  induction pending as [|a pending IH]; intros res rest acts; simpl; [done|].
  destruct a as [err|response].
  - intros [= <- <- <-]. repeat split; [by repeat constructor | by eexists | lia].
  - destruct (decide (response = no)).
    { intros [= <- <- <-]. repeat split; [by repeat constructor | by eexists | lia]. }
    destruct (decide (response = yes)).
    { intros [= <- <- <-]. repeat split; [by repeat constructor | by eexists | lia]. }
    destruct (confirm_loop kind events opts pending) as [[[res' rest'] acts']|]; [|done].
    intros [= <- <- <-]. destruct (IH _ _ _ eq_refl) as (Hf & _ & Hlen).
    repeat split; [| by eexists | lia].
    constructor; [done|]. apply Forall_app. split; [|done].
    destruct (decide (response = details)); by repeat constructor.
Qed.

(** Answers other than yes and no keep the loop going; the first "no"
    ends it with a bail. *)
Lemma confirm_loop_declined kind events opts (shown : list string) rest :
  Forall (λ s, s ≠ yes ∧ s ≠ no) shown →
  ∃ acts,
    confirm_loop kind events opts ((AskResponse <$> shown) ++ AskResponse no :: rest)
    = Some (Some Bail, rest, acts).
Proof.
  induction 1 as [|s shown [Hy Hn] _ [acts IH]]; csimpl.
  - by eexists.
  - destruct (decide (s = no)); [done|]. destruct (decide (s = yes)); [done|].
    rewrite IH. by eexists.
Qed.

Lemma terminal_false response :
  terminal (AskResponse response) = false ↔ response ≠ yes ∧ response ≠ no.
Proof.
  simpl. rewrite orb_false_iff, !bool_decide_eq_false. done.
Qed.

Lemma count_cons {A} (f : A → bool) x l :
  count f (x :: l) = (if f x then 1 else 0) + count f l.
Proof.
  unfold count. rewrite filter_cons. by destruct (f x).
Qed.

Lemma count_app {A} (f : A → bool) l1 l2 : count f (l1 ++ l2) = count f l1 + count f l2.
Proof. unfold count. by rewrite filter_app, length_app. Qed.

Lemma confirm_loop_Some kind events opts pending res rest acts :
  confirm_loop kind events opts pending = Some (res, rest, acts) →
  ∃ shown a,
    pending = shown ++ a :: rest ∧
    Forall (λ x, terminal x = false) shown ∧ terminal a = true ∧
    res = outcome kind a ∧
    count is_prompt acts = S (length shown) ∧
    count is_diff acts = count asks_details shown ∧
    Forall (λ x, is_apply x = false ∧ x ≠ ActPrintNoResources) acts.
Proof.
  revert res rest acts.
  induction pending as [|a pending IH]; intros res rest acts; simpl; [done|].
  destruct a as [err|response].
  - intros [= <- <- <-]. exists [], (AskErr err).
    repeat split; try done. by repeat constructor.
  - destruct (decide (response = no)) as [->|Hno].
    { intros [= <- <- <-]. exists [], (AskResponse no).
      repeat split; try done. by repeat constructor. }
    destruct (decide (response = yes)) as [->|Hyes].
    { intros [= <- <- <-]. exists [], (AskResponse yes).
      repeat split; try done. by repeat constructor. }
    destruct (confirm_loop kind events opts pending) as [[[res' rest'] acts']|]; [|done].
    intros [= <- <- <-].
    destruct (IH _ _ _ eq_refl) as (shown & a & -> & Hshown & Ha & Hres & Hp & Hd & Hf).
    exists (AskResponse response :: shown), a.
    split; [done|]. split; [constructor; [by apply terminal_false | done]|].
    split; [done|]. split; [done|].
    rewrite !count_cons, !count_app. cbn [is_prompt is_diff asks_details length].
    destruct (decide (response = details)) as [->|Hdet].
    + rewrite bool_decide_eq_true_2 by done.
      rewrite !count_cons. cbn [is_prompt is_diff]. unfold count at 1 3. simpl.
      split; [by rewrite Hp|]. split; [by rewrite Hd|].
      constructor; [done|]. constructor; [done|]. done.
    + rewrite bool_decide_eq_false_2 by done. unfold count at 1 3. simpl.
      split; [by rewrite Hp|]. split; [by rewrite Hd|]. by constructor.
Qed.

Lemma confirm_loop_terminal kind events opts shown a rest :
  Forall (λ x, terminal x = false) shown → terminal a = true →
  ∃ acts, confirm_loop kind events opts (shown ++ a :: rest)
          = Some (outcome kind a, rest, acts) ∧
          Forall (λ x, is_apply x = false) acts.
Proof.
  intros Hshown Ha. induction Hshown as [|x shown Hx _ [acts [IH Hacts]]]; simpl.
  - destruct a as [err|response]; simpl; [eexists; split; [done|by repeat constructor]|].
    simpl in Ha. destruct (decide (response = no)) as [->|Hno].
    { eexists; split; [done|by repeat constructor]. }
    rewrite (bool_decide_eq_false_2 (response = no)) in Ha by done.
    rewrite orb_false_r in Ha. apply bool_decide_eq_true in Ha.
    rewrite decide_True by done. eexists; split; [done|by repeat constructor].
  - destruct x as [err|response]; [done|].
    apply terminal_false in Hx as [Hyes Hno].
    rewrite decide_False by done. rewrite decide_False by done. rewrite IH.
    eexists; split; [done|]. constructor; [done|]. apply Forall_app. split; [|done].
    destruct (decide _); by repeat constructor.
Qed.

Lemma confirm_loop_None kind events opts pending :
  Forall (λ x, terminal x = false) pending →
  confirm_loop kind events opts pending = None.
Proof.
  induction 1 as [|x pending Hx _ IH]; [done|]. simpl.
  destruct x as [err|response]; [done|]. apply terminal_false in Hx as [Hyes Hno].
  rewrite decide_False by done. rewrite decide_False by done. by rewrite IH.
Qed.

Lemma is_apply_false_not_real a : is_apply a = false → is_real a = false.
Proof. by destruct a. Qed.

(** [PreviewThenPrompt], with the state passing written out. *)
Lemma PreviewThenPrompt_unfold kind stack op apply r :
  PreviewThenPrompt kind stack op apply r =
  let wo := preview apply kind stack op (world r) in
  let called := trace r ++ [ActApply kind op dry (seen_plan (world r) op)] in
  let events := filter (λ e, collected e = true) (ret_events wo.2) in
  match ret_res wo.2 with
  | Some res =>
      Some ((ret_plan wo.2, ret_changes wo.2, Some res), mkRun wo.1 (answers r) called)
  | None =>
      if AutoApprove (Opts op) || bool_decide (kind = PreviewUpdate) then
        Some ((ret_plan wo.2, ret_changes wo.2, None), mkRun wo.1 (answers r) called)
      else
        match confirm_loop kind events (Opts op) (answers r) with
        | Some (res, rest, acts) =>
            Some ((ret_plan wo.2, ret_changes wo.2, res),
                  mkRun wo.1 rest ((called ++ no_resources_info kind events) ++ acts))
        | None => None
        end
  end.
Proof.
  unfold PreviewThenPrompt, bind, preview. rewrite call_run.
  cbv zeta.
  destruct (ret_res _); [done|].
  destruct (AutoApprove (Opts op) || bool_decide (kind = PreviewUpdate)); [done|].
  unfold confirmBeforeUpdating, emit, ret. cbn [world answers trace].
  by destruct (confirm_loop _ _ _ _) as [[[res rest] acts]|].
Qed.

Lemma no_resources_info_no_apply kind events :
  Forall (λ a, is_apply a = false) (no_resources_info kind events).
Proof.
  unfold no_resources_info.
  destruct (bool_decide (kind ≠ UpdateUpdate)); [done|].
  destruct (bool_decide (countResources events = 0)); by repeat constructor.
Qed.

Lemma no_resources_info_no_prompt kind events :
  count is_prompt (no_resources_info kind events) = 0.
Proof.
  unfold no_resources_info.
  destruct (bool_decide (kind ≠ UpdateUpdate)); [done|].
  by destruct (bool_decide (countResources events = 0)).
Qed.

Lemma no_resources_info_not_real kind events :
  Forall (λ a, is_real a = false) (no_resources_info kind events).
Proof.
  unfold no_resources_info.
  destruct (bool_decide (kind ≠ UpdateUpdate)); [done|].
  destruct (bool_decide (countResources events = 0)); by repeat constructor.
Qed.

(** A run of [PreviewThenPrompt] is one dry call of the applier, then
    actions that call no applier. *)
Lemma PreviewThenPrompt_run kind stack op apply r x r' :
  PreviewThenPrompt kind stack op apply r = Some (x, r') →
  world r' = (preview apply kind stack op (world r)).1 ∧
  x.1 = (ret_plan (preview apply kind stack op (world r)).2,
         ret_changes (preview apply kind stack op (world r)).2) ∧
  ∃ acts,
    trace r' = trace r ++ ActApply kind op dry (seen_plan (world r) op) :: acts ∧
    Forall (λ a, is_real a = false) acts.
Proof.
  rewrite PreviewThenPrompt_unfold. cbv zeta.
  destruct (ret_res _).
  { intros [= <- <-]. cbn [world trace fst]. repeat split. exists []. by split. }
  destruct (AutoApprove (Opts op) || bool_decide (kind = PreviewUpdate)).
  { intros [= <- <-]. cbn [world trace fst]. repeat split. exists []. by split. }
  destruct (confirm_loop _ _ _ _) as [[[res rest] acts]|] eqn:Hc; [|done].
  intros [= <- <-]. cbn [world trace fst]. repeat split.
  apply confirm_loop_acts in Hc as (Hf & _ & _).
  match goal with
  | |- context [no_resources_info kind ?ev] => exists (no_resources_info kind ev ++ acts)
  end.
  split.
  - rewrite <- !app_assoc. reflexivity.
  - apply Forall_app. split; [apply no_resources_info_not_real | done].
Qed.

Lemma execute_run kind stack op apply r :
  execute kind stack op apply r =
  let op' := set_GeneratePlan op false in
  let wo := apply kind stack op' (mkApplierOptions false true) (world r) in
  Some ((ret_changes wo.2, ret_res wo.2),
        mkRun wo.1 (answers r)
          (trace r ++ [ActApply kind op' (mkApplierOptions false true)
                         (seen_plan (world r) op')])).
Proof. unfold execute, bind. by rewrite call_run. Qed.

Lemma clone_original_run op r o r1 :
  clone_original op r = Some (o, r1) →
  answers r1 = answers r ∧ trace r1 = trace r ∧
  match Plan_ (Engine (Opts op)) with
  | Some p =>
      ∃ content, plans (world r) !! p = Some content ∧
        o = Some (fresh (dom (plans (world r)))) ∧
        world r1 = mkWorld (<[fresh (dom (plans (world r))) := content]> (plans (world r)))
                     (ext (world r))
  | None => o = None ∧ world r1 = world r
  end.
Proof.
  unfold clone_original. destruct (Plan_ (Engine (Opts op))) as [p|].
  - unfold bind, Plan_Clone. destruct (plans (world r) !! p) as [content|]; [|done].
    intros [= <- <-]. repeat split. by exists content.
  - by intros [= <- <-].
Qed.

Lemma clone_original_returns op r :
  (∀ p, Plan_ (Engine (Opts op)) = Some p → p ∈ dom (plans (world r))) →
  ∃ o r1, clone_original op r = Some (o, r1).
Proof.
  intros Hvalid. unfold clone_original.
  destruct (Plan_ (Engine (Opts op))) as [p|]; [|by eexists _, _].
  specialize (Hvalid p eq_refl). apply elem_of_dom in Hvalid as [content Hp].
  unfold bind, Plan_Clone. rewrite Hp. by eexists _, _.
Qed.

(** [PreviewThenPromptThenExecute] with a preview, the state passing
    written out. *)
Lemma PreviewThenPromptThenExecute_unfold kind stack op apply r :
  SkipPreview (Opts op) = false →
  PreviewThenPromptThenExecute kind stack op apply r =
  match clone_original op r with
  | Some (originalPlan, r1) =>
      match PreviewThenPrompt kind stack op apply r1 with
      | Some ((plan, changes, res), r2) =>
          if bool_decide (res ≠ None) || bool_decide (kind = PreviewUpdate) then
            Some ((changes, res), r2)
          else
            execute kind stack
              match originalPlan with
              | Some l => set_Plan op (Some l)
              | None => if Experimental (Engine (Opts op)) then set_Plan op plan
                        else set_Plan op None
              end apply r2
      | None => None
      end
  | None => None
  end.
Proof.
  intros Hskip. unfold PreviewThenPromptThenExecute. rewrite Hskip. cbn [negb].
  unfold bind at 1. destruct (clone_original op r) as [[originalPlan r1]|]; [|done].
  unfold bind at 1.
  destruct (PreviewThenPrompt kind stack op apply r1) as [[[[plan changes] res] r2]|]; [|done].
  by destruct (bool_decide (res ≠ None) || bool_decide (kind = PreviewUpdate)).
Qed.

(** ** The claims on the orchestrator *)

(** C8, amended.  After a dry run that succeeds, [PreviewThenPrompt]
    returns a nil result without prompting when auto-approval is set or
    the kind is a preview; otherwise it prompts for yes or no, and for the
    details when the preview is not skipped: it waits as long as no
    answer is "yes", "no" or an error of the prompt, and on the first
    such answer it returns the result read off that answer, having
    prompted once per answer.  When the kind is a preview and the preview
    is not skipped, [PreviewThenPromptThenExecute] returns after the one
    dry call of the applier. *)
Theorem PreviewThenPrompt_confirms kind stack op apply r :
  (ret_res (preview apply kind stack op (world r)).2 = None →
   (AutoApprove (Opts op) = true ∨ kind = PreviewUpdate →
    ∃ plan changes r',
      PreviewThenPrompt kind stack op apply r = Some ((plan, changes, None), r') ∧
      answers r' = answers r ∧
      trace r' = trace r ++ [ActApply kind op dry (seen_plan (world r) op)])
   ∧
   (AutoApprove (Opts op) = false → kind ≠ PreviewUpdate →
    (answers r = [] → PreviewThenPrompt kind stack op apply r = None) ∧
    (Forall (λ a, terminal a = false) (answers r) →
     PreviewThenPrompt kind stack op apply r = None) ∧
    (∀ x r', PreviewThenPrompt kind stack op apply r = Some (x, r') →
       length (answers r') < length (answers r) ∧
       ∃ info acts,
         trace r' = trace r ++ ActApply kind op dry (seen_plan (world r) op) :: info
                      ++ ActPrompt kind (choices (Opts op)) no :: acts ∧
         (info = [] ∨ info = [ActPrintNoResources])) ∧
    (∀ shown a rest,
       answers r = shown ++ a :: rest →
       Forall (λ a, terminal a = false) shown → terminal a = true →
       ∃ r' info acts,
         PreviewThenPrompt kind stack op apply r
         = Some ((ret_plan (preview apply kind stack op (world r)).2,
                  ret_changes (preview apply kind stack op (world r)).2,
                  outcome kind a), r') ∧
         answers r' = rest ∧
         world r' = (preview apply kind stack op (world r)).1 ∧
         trace r' = trace r ++ ActApply kind op dry (seen_plan (world r) op) :: info
                      ++ ActPrompt kind
                           (yes :: no :: if SkipPreview (Opts op) then [] else [details])
                           no :: acts ∧
         (info = [] ∨ info = [ActPrintNoResources]) ∧
         count is_prompt (ActPrompt kind (choices (Opts op)) no :: acts)
         = S (length shown) ∧
         Forall (λ x, is_apply x = false) acts)))
  ∧
  (kind = PreviewUpdate → SkipPreview (Opts op) = false →
   (∀ p, Plan_ (Engine (Opts op)) = Some p → p ∈ dom (plans (world r))) →
   ∃ x r' a,
     PreviewThenPromptThenExecute kind stack op apply r = Some (x, r') ∧
     trace r' = trace r ++ [a] ∧ is_real a = false).
Proof.
  assert (∀ events, no_resources_info kind events = [] ∨
                    no_resources_info kind events = [ActPrintNoResources]) as Hinfo.
  { intros events. unfold no_resources_info.
    destruct (bool_decide (kind ≠ UpdateUpdate)); [by left|].
    destruct (bool_decide _); auto. }
  split.
  - intros Hres. split.
    + intros Hauto. rewrite PreviewThenPrompt_unfold. cbv zeta. rewrite Hres.
      assert (AutoApprove (Opts op) || bool_decide (kind = PreviewUpdate) = true) as ->.
      { destruct Hauto as [-> | ->]; [done|]. by rewrite bool_decide_eq_true_2, orb_true_r. }
      by eexists _, _, _.
    + intros Hauto Hkind. rewrite PreviewThenPrompt_unfold. cbv zeta. rewrite Hres, Hauto.
      rewrite bool_decide_eq_false_2 by done. cbn [orb]. split; [|split; [|split]].
      * by intros ->.
      * intros Hnone. by rewrite confirm_loop_None.
      * intros x r'.
        destruct (confirm_loop _ _ _ _) as [[[res rest] acts]|] eqn:Hc; [|done].
        intros [= <- <-]. cbn [answers trace].
        apply confirm_loop_acts in Hc as (_ & [acts' ->] & Hlen). split; [done|].
        match goal with
        | |- context [no_resources_info kind ?ev] =>
            exists (no_resources_info kind ev), acts'
        end.
        split; [by rewrite <- !app_assoc | apply Hinfo].
      * intros shown a rest Hanswers Hshown Ha. rewrite Hanswers.
        match goal with
        | |- context [confirm_loop kind ?ev _ _] =>
            destruct (confirm_loop_terminal kind ev (Opts op) shown a rest Hshown Ha)
              as (acts0 & Hc & _); rewrite Hc;
            pose proof (confirm_loop_acts _ _ _ _ _ _ _ Hc) as (_ & [acts' ->] & _);
            apply confirm_loop_Some in Hc
              as (shown' & a' & Heq & _ & _ & _ & Hp & _ & Hf);
            eexists _, (no_resources_info kind ev), acts'
        end.
        split; [reflexivity|]. cbn [answers world trace].
        split; [done|]. split; [done|].
        split; [rewrite <- !app_assoc; reflexivity|].
        split; [apply Hinfo|]. split.
        -- rewrite Hp. f_equal. apply (f_equal length) in Heq.
           rewrite !length_app in Heq. simpl in Heq. lia.
        -- apply Forall_cons in Hf as [_ Hf].
           eapply Forall_impl; [exact Hf|]. by intros x [? _].
  - intros -> Hskip Hvalid.
    rewrite PreviewThenPromptThenExecute_unfold by done.
    destruct (clone_original_returns op r Hvalid) as (o & r1 & Hclone).
    rewrite Hclone. apply clone_original_run in Hclone as (Ha & Ht & _).
    rewrite PreviewThenPrompt_unfold. cbv zeta.
    rewrite bool_decide_eq_true_2 by done. rewrite orb_true_r.
    destruct (ret_res _); rewrite orb_true_r; rewrite Ht;
      eexists _, _, _; (split; [reflexivity|]); by split.
Qed.

(** C9. When the user answers "no" at the prompt, after any number of
    answers that are neither yes nor no, [confirmBeforeUpdating] returns a
    bail, a result that is not nil and not an error; and
    [PreviewThenPromptThenExecute] then returns that bail with no call of
    the applier with [DryRun] off. *)
Theorem declined_confirmation_bails kind stack op apply r (shown : list string) rest :
  Forall (λ s, s ≠ yes ∧ s ≠ no) shown →
  answers r = (AskResponse <$> shown) ++ AskResponse no :: rest →
  (∀ events, ∃ r',
     confirmBeforeUpdating kind stack events (Opts op) r = Some (Some Bail, r') ∧
     IsBail Bail = true ∧ IsError Bail = false ∧
     answers r' = rest ∧ world r' = world r)
  ∧
  (SkipPreview (Opts op) = false → AutoApprove (Opts op) = false →
   kind ≠ PreviewUpdate →
   ∀ o r1, clone_original op r = Some (o, r1) →
     ret_res (preview apply kind stack op (world r1)).2 = None →
     ∃ changes r' acts,
       PreviewThenPromptThenExecute kind stack op apply r
       = Some ((changes, Some Bail), r') ∧
       trace r' = trace r ++ acts ∧
       Forall (λ a, is_real a = false) acts).
Proof.
  intros Hshown Hanswers. split.
  - intros events.
    destruct (confirm_loop_declined kind events (Opts op) shown rest Hshown) as [acts Hc].
    unfold confirmBeforeUpdating. rewrite Hanswers, Hc. by eexists.
  - intros Hskip Hauto Hkind o r1 Hclone Hres.
    rewrite PreviewThenPromptThenExecute_unfold by done. rewrite Hclone.
    apply clone_original_run in Hclone as (Ha & Ht & _).
    destruct (PreviewThenPrompt kind stack op apply r1) as [[[[plan changes] res] r2]|] eqn:Hp.
    + pose proof Hp as Hrun. apply PreviewThenPrompt_run in Hrun as (_ & _ & acts & Hacts & Hf).
      rewrite PreviewThenPrompt_unfold in Hp. cbv zeta in Hp.
      rewrite Hres, Hauto in Hp. rewrite bool_decide_eq_false_2 in Hp by done.
      cbn [orb] in Hp. rewrite Ha, Hanswers in Hp.
      destruct (confirm_loop_declined kind
                  (filter (λ e, collected e = true)
                     (ret_events (preview apply kind stack op (world r1)).2))
                  (Opts op) shown rest Hshown) as [acts' Hc].
      rewrite Hc in Hp. injection Hp as _ _ <- _.
      rewrite bool_decide_eq_true_2 by done. cbn [orb].
      eexists changes, r2, _. split; [done|]. split; [by rewrite Hacts, Ht|].
      constructor; [done|exact Hf].
    + exfalso. rewrite PreviewThenPrompt_unfold in Hp. cbv zeta in Hp.
      rewrite Hres, Hauto in Hp. rewrite bool_decide_eq_false_2 in Hp by done.
      cbn [orb] in Hp. rewrite Ha, Hanswers in Hp.
      destruct (confirm_loop_declined kind
                  (filter (λ e, collected e = true)
                     (ret_events (preview apply kind stack op (world r1)).2))
                  (Opts op) shown rest Hshown) as [acts' Hc].
      by rewrite Hc in Hp.
Qed.

(** C7. With a preview and a plan in the options of the operation, the
    plan is cloned before the preview, which is handed the plan of the
    operation itself; whatever a confined applier does to that plan, each
    call of the applier with [DryRun] off is handed the clone, whose
    content is the content of the plan before the preview.  With
    auto-approval, a kind other than a preview and a preview that
    succeeds, the run returns after exactly these two calls.  Without
    auto-approval, when the first answer that ends the prompt is "yes",
    the run returns after the dry call, one prompt per answer read and no
    other call of the applier, and then the call with [DryRun] off on the
    clone. *)
Theorem PreviewThenPromptThenExecute_original_plan kind stack op apply r p P0 :
  SkipPreview (Opts op) = false →
  Plan_ (Engine (Opts op)) = Some p →
  plans (world r) !! p = Some P0 →
  confined apply →
  let l := fresh (dom (plans (world r))) in
  let w1 := mkWorld (<[l := P0]> (plans (world r))) (ext (world r)) in
  let real := ActApply kind (set_GeneratePlan (set_Plan op (Some l)) false)
                (mkApplierOptions false true) (Some P0) in
  l ≠ p ∧
  (∀ x r', PreviewThenPromptThenExecute kind stack op apply r = Some (x, r') →
     ∃ acts,
       trace r' = trace r ++ ActApply kind op dry (Some P0) :: acts ∧
       ∀ a, a ∈ acts → is_real a = true → a = real) ∧
  (AutoApprove (Opts op) = true → kind ≠ PreviewUpdate →
   ret_res (preview apply kind stack op w1).2 = None →
   ∃ x r',
     PreviewThenPromptThenExecute kind stack op apply r = Some (x, r') ∧
     trace r' = trace r ++ [ActApply kind op dry (Some P0); real]) ∧
  (AutoApprove (Opts op) = false → kind ≠ PreviewUpdate →
   ret_res (preview apply kind stack op w1).2 = None →
   ∀ shown rest,
     Forall (λ a, terminal a = false) shown →
     answers r = shown ++ AskResponse yes :: rest →
     ∃ x r' mid,
       PreviewThenPromptThenExecute kind stack op apply r = Some (x, r') ∧
       answers r' = rest ∧
       trace r' = trace r ++ ActApply kind op dry (Some P0) :: mid ++ [real] ∧
       Forall (λ a, is_apply a = false) mid ∧
       count is_prompt mid = S (length shown)).
Proof.
  intros Hskip Hplan HP0 Hconf l w1 real.
  assert (l ∉ dom (plans (world r))) as Hfresh by apply is_fresh.
  assert (l ≠ p) as Hne.
  { intros ->. apply Hfresh. apply elem_of_dom. eauto. }
  assert (clone_original op r = Some (Some l, mkRun w1 (answers r) (trace r))) as Hclone.
  { unfold clone_original, bind, Plan_Clone. by rewrite Hplan, HP0. }
  assert (seen_plan w1 op = Some P0) as Hseen1.
  { rewrite Hplan. cbn [mbind option_bind plans w1]. by rewrite lookup_insert_ne. }
  assert (plans (preview apply kind stack op w1).1 !! l = Some P0) as Hseen2.
  { unfold preview. rewrite Hconf.
    - cbn [plans w1]. by rewrite lookup_insert_eq.
    - rewrite Hplan. congruence.
    - cbn [plans w1]. apply elem_of_dom. rewrite lookup_insert_eq. eauto. }
  split; [done|]. split; [|split].
  - intros x r' Hrun.
    rewrite PreviewThenPromptThenExecute_unfold in Hrun by done. rewrite Hclone in Hrun.
    destruct (PreviewThenPrompt kind stack op apply _) as [[[[plan changes] res] r2]|] eqn:Hp;
      [|done].
    apply PreviewThenPrompt_run in Hp as (Hw2 & _ & acts & Hacts & Hf).
    cbn [world trace] in Hw2, Hacts. rewrite Hseen1 in Hacts.
    destruct (bool_decide (res ≠ None) || bool_decide (kind = PreviewUpdate)).
    + injection Hrun as <- <-. exists acts. split; [done|].
      intros a Hin Hreal. rewrite Forall_forall in Hf. specialize (Hf a Hin). congruence.
    + rewrite execute_run in Hrun. cbv zeta in Hrun. injection Hrun as <- <-.
      cbn [trace set_GeneratePlan set_Plan Opts Engine Plan_ mbind option_bind].
      rewrite Hw2, Hseen2. exists (acts ++ [real]).
      split; [by rewrite Hacts, <- app_assoc|].
      intros a [Hin | Hin%list_elem_of_singleton]%elem_of_app Hreal; [|done].
      rewrite Forall_forall in Hf. specialize (Hf a Hin). congruence.
  - intros Hauto Hkind Hres.
    rewrite PreviewThenPromptThenExecute_unfold by done. rewrite Hclone.
    rewrite PreviewThenPrompt_unfold. cbv zeta. cbn [world answers trace].
    rewrite Hres, Hauto. cbn [orb].
    rewrite (bool_decide_eq_false_2 (None ≠ None)) by (intros Hn; by apply Hn).
    rewrite bool_decide_eq_false_2 by done. cbn [orb].
    rewrite execute_run. cbv zeta.
    cbn [world trace set_GeneratePlan set_Plan Opts Engine Plan_ mbind option_bind].
    rewrite Hseen1, Hseen2. eexists _, _. split; [reflexivity|].
    cbn [trace]. by rewrite <- app_assoc.
  - intros Hauto Hkind Hres shown rest Hshown Hanswers.
    rewrite PreviewThenPromptThenExecute_unfold by done. rewrite Hclone.
    rewrite PreviewThenPrompt_unfold. cbv zeta. cbn [world answers trace].
    rewrite Hres, Hauto. rewrite (bool_decide_eq_false_2 (kind = PreviewUpdate)) by done.
    cbn [orb]. rewrite Hanswers.
    match goal with
    | |- context [confirm_loop kind ?ev _ _] =>
        destruct (confirm_loop_terminal kind ev (Opts op) shown (AskResponse yes) rest
                    Hshown eq_refl) as (acts0 & Hc & Hdry);
        rewrite Hc;
        apply confirm_loop_Some in Hc as (shown' & a' & Heq & _ & _ & _ & Hprompts & _);
        set (info := no_resources_info kind ev)
    end.
    change (outcome kind (AskResponse yes)) with (@None Result).
    rewrite (bool_decide_eq_false_2 (None ≠ None)) by (intros Hn; by apply Hn).
    cbn [orb]. rewrite execute_run. cbv zeta.
    cbn [world trace answers set_GeneratePlan set_Plan Opts Engine Plan_ mbind option_bind].
    rewrite Hseen1, Hseen2. eexists _, _, (info ++ acts0).
    split; [reflexivity|]. cbn [answers trace]. split; [done|].
    split; [by rewrite <- !app_assoc|]. split.
    + apply Forall_app. split; [apply no_resources_info_no_apply | done].
    + subst info. rewrite count_app, no_resources_info_no_prompt, Hprompts. simpl. f_equal.
      apply (f_equal length) in Heq. rewrite !length_app in Heq. simpl in Heq. lia.
Qed.

(** ** [countResources] *)

Lemma countResources_app evs1 evs2 :
  countResources (evs1 ++ evs2) = countResources evs1 + countResources evs2.
Proof.
  induction evs1 as [|e evs1 IH]; [done|]. simpl.
  destruct (Type_ e), (Payload e); try done. destruct (decide _); simpl; lia.
Qed.

Lemma countResources_collected evs :
  countResources (filter (λ e, collected e = true) evs) = countResources evs.
Proof.
  induction evs as [|e evs IH]; [done|]. rewrite filter_cons.
  destruct (decide (collected e = true)) as [Hc|Hc].
  - simpl. rewrite IH. done.
  - simpl. rewrite IH. unfold collected in Hc. by destruct (Type_ e).
Qed.

(** [countResources] counts the events of type [ResourcePreEvent] with a
    payload of that type and a resource type other than the stack's: the
    count of a concatenation is the sum of the counts, it is at most the
    number of events, the events the goroutine drops do not count, and
    the count is 0 exactly when no event is of that form. *)
Theorem countResources_counts :
  (∀ evs1 evs2,
     countResources (evs1 ++ evs2) = countResources evs1 + countResources evs2) ∧
  (∀ evs, countResources evs ≤ length evs) ∧
  (∀ evs, countResources (filter (λ e, collected e = true) evs) = countResources evs) ∧
  (∀ evs, countResources evs = 0 ↔
          ∀ e ty, e ∈ evs → Type_ e = ResourcePreEvent →
                  Payload e = ResourcePreEventPayload ty → ty = "pulumi:pulumi:Stack").
Proof.
  split; [exact countResources_app|]. split; [|split; [exact countResources_collected|]].
  - induction evs as [|e evs IH]; [done|]. simpl.
    destruct (Type_ e), (Payload e); try lia. destruct (decide _); lia.
  - induction evs as [|e evs IH]; simpl.
    + split; [|done]. intros _ e ty He. by apply elem_of_nil in He.
    + destruct (Type_ e) eqn:Ht, (Payload e) eqn:Hp;
        try (rewrite IH; split;
             [ intros Hall e' ty' [->|Hin]%elem_of_cons; [congruence | by eapply Hall]
             | intros Hall e' ty' Hin; apply Hall; apply elem_of_cons; by right ]).
      destruct (decide (ty = "pulumi:pulumi:Stack")) as [->|Hne].
      * rewrite IH. split.
        -- intros Hall e' ty' [->|Hin]%elem_of_cons; [congruence | by eapply Hall].
        -- intros Hall e' ty' Hin. apply Hall. apply elem_of_cons. by right.
      * split; [done|]. intros Hall. destruct Hne.
        apply (Hall e ty); [apply elem_of_cons; by left | done..].
Qed.

(** ** The loop of [confirmBeforeUpdating] *)

(** [confirmBeforeUpdating] returns exactly when some answer to come is
    "yes", "no" or an error of the prompt; otherwise it prompts for
    ever. *)
Theorem confirmBeforeUpdating_returns kind stack events opts r :
  is_Some (confirmBeforeUpdating kind stack events opts r) ↔
  Exists (λ a, terminal a = true) (answers r).
Proof.
  unfold confirmBeforeUpdating. split.
  - destruct (confirm_loop kind events opts (answers r)) as [[[res rest] acts]|] eqn:Hc;
      [|by intros [? ?]].
    intros _. apply confirm_loop_Some in Hc as (shown & a & -> & _ & Ha & _).
    apply Exists_app. right. by constructor.
  - intros Hex.
    destruct (confirm_loop kind events opts (answers r)) as [[[res rest] acts]|] eqn:Hc;
      [by eexists|].
    exfalso.
    assert (∀ pending, Exists (λ a, terminal a = true) pending →
              confirm_loop kind events opts pending ≠ None) as Hgen.
    { clear. intros pending Hex. induction Hex as [a l Ha | a l _ IH].
      - destruct (confirm_loop_terminal kind events opts [] a l) as [acts [Heq _]];
          [constructor | done |]. simpl in Heq. simpl. by rewrite Heq.
      - simpl. destruct a as [err|response]; [done|].
        destruct (decide _); [done|]. destruct (decide _); [done|].
        by destruct (confirm_loop kind events opts l) as [[[? ?] ?]|]. }
    by apply (Hgen _ Hex).
Qed.

(** When [confirmBeforeUpdating] returns, it has used the answers up to
    the first that ends the loop and left the rest; its result is read
    off that answer; it has prompted once per answer used, printed the
    details once per request for them, and left the world alone. *)
Theorem confirmBeforeUpdating_consumes kind stack events opts r res r' :
  confirmBeforeUpdating kind stack events opts r = Some (res, r') →
  ∃ shown a acts,
    answers r = shown ++ a :: answers r' ∧
    Forall (λ x, terminal x = false) shown ∧ terminal a = true ∧
    res = outcome kind a ∧
    world r' = world r ∧
    trace r' = trace r ++ acts ∧
    count is_prompt acts = S (length shown) ∧
    count is_diff acts = count asks_details shown ∧
    Forall (λ x, is_apply x = false) acts.
Proof.
  unfold confirmBeforeUpdating.
  destruct (confirm_loop kind events opts (answers r)) as [[[res0 rest] acts]|] eqn:Hc;
    [|done].
  intros [= <- <-]. cbn [answers world trace].
  apply confirm_loop_Some in Hc as (shown & a & Heq & Hshown & Ha & Hres & Hp & Hd & Hf).
  exists shown, a, acts. repeat split; try done.
  eapply Forall_impl; [exact Hf|]. by intros x [? _].
Qed.

(** ** The paths of [PreviewThenPromptThenExecute] *)

(** With [SkipPreview] set, [PreviewThenPromptThenExecute] is one call of
    the applier with [DryRun] off and [GeneratePlan] off, on the plan of
    the operation: no dry run, no prompt, no answer read, whatever the
    kind and whether or not auto-approval is set. *)
Theorem skipped_preview_executes kind stack op apply r :
  SkipPreview (Opts op) = true →
  let op' := set_GeneratePlan op false in
  let wo := apply kind stack op' (mkApplierOptions false true) (world r) in
  PreviewThenPromptThenExecute kind stack op apply r
  = Some ((ret_changes wo.2, ret_res wo.2),
          mkRun wo.1 (answers r)
            (trace r ++ [ActApply kind op' (mkApplierOptions false true)
                           (seen_plan (world r) op)])) ∧
  GeneratePlan (Engine (Opts op')) = false ∧
  Plan_ (Engine (Opts op')) = Plan_ (Engine (Opts op)).
Proof.
  intros Hskip op' wo. split; [|done].
  unfold PreviewThenPromptThenExecute. rewrite Hskip. cbn [negb].
  by rewrite execute_run.
Qed.

(** When the preview fails, [PreviewThenPromptThenExecute] returns the
    changes and the result of the preview after that one dry call: no
    prompt, no answer read, no call with [DryRun] off. *)
Theorem failed_preview_stops kind stack op apply r o r1 res :
  SkipPreview (Opts op) = false →
  clone_original op r = Some (o, r1) →
  ret_res (preview apply kind stack op (world r1)).2 = Some res →
  PreviewThenPromptThenExecute kind stack op apply r
  = Some ((ret_changes (preview apply kind stack op (world r1)).2, Some res),
          mkRun (preview apply kind stack op (world r1)).1 (answers r)
            (trace r ++ [ActApply kind op dry (seen_plan (world r) op)])).
Proof.
  intros Hskip Hclone Hres.
  rewrite PreviewThenPromptThenExecute_unfold by done. rewrite Hclone.
  rewrite PreviewThenPrompt_unfold. cbv zeta. rewrite Hres.
  rewrite (bool_decide_eq_true_2 (Some res ≠ None)) by done. cbn [orb].
  apply clone_original_run in Hclone as (-> & -> & Hw).
  do 4 f_equal.
  destruct (Plan_ (Engine (Opts op))) as [p|] eqn:Hp.
  - destruct Hw as (content & Hcontent & _ & ->). cbn [mbind option_bind plans].
    rewrite lookup_insert_ne; [done|].
    intros Heq. apply (is_fresh (dom (plans (world r)))). rewrite Heq.
    apply elem_of_dom. eauto.
  - done.
Qed.

(** With no plan in the options, auto-approval, a kind other than a
    preview and a preview that succeeds, the call with [DryRun] off is
    handed the plan the preview returned when [Experimental] is set, and
    no plan otherwise; [GeneratePlan] is off in that call. *)
Theorem generated_plan_reused kind stack op apply r :
  SkipPreview (Opts op) = false →
  Plan_ (Engine (Opts op)) = None →
  AutoApprove (Opts op) = true → kind ≠ PreviewUpdate →
  ret_res (preview apply kind stack op (world r)).2 = None →
  let out := preview apply kind stack op (world r) in
  let chosen := if Experimental (Engine (Opts op)) then ret_plan out.2 else None in
  let op' := set_GeneratePlan (set_Plan op chosen) false in
  ∃ x r',
    PreviewThenPromptThenExecute kind stack op apply r = Some (x, r') ∧
    answers r' = answers r ∧
    trace r' = trace r ++ [ActApply kind op dry None;
                           ActApply kind op' (mkApplierOptions false true)
                             (chosen ≫= (λ p, plans out.1 !! p))] ∧
    Plan_ (Engine (Opts op')) = chosen ∧
    GeneratePlan (Engine (Opts op')) = false.
Proof.
  intros Hskip Hplan Hauto Hkind Hres out chosen op'.
  rewrite PreviewThenPromptThenExecute_unfold by done.
  unfold clone_original. rewrite Hplan. unfold ret at 1.
  rewrite PreviewThenPrompt_unfold. cbv zeta.
  rewrite Hres, Hauto. cbn [orb].
  rewrite (bool_decide_eq_false_2 (None ≠ None)) by (intros Hn; by apply Hn).
  rewrite bool_decide_eq_false_2 by done. cbn [orb].
  rewrite execute_run. cbv zeta. rewrite Hplan.
  eexists _, _. split; [reflexivity|]. cbn [answers trace world]. split; [done|].
  split; [|by subst op' chosen; destruct (Experimental _)].
  rewrite <- app_assoc. subst op' chosen out.
  by destruct (Experimental (Engine (Opts op))).
Qed.

End BackendFacts.

(** * The theorems at work on the examples *)

Import deploy examples.

(** C1 on [snap_ok], which is accepted and where the bucket at index 1 has
    its parent and dependency at index 0, and on [snap_child_first], which
    is rejected. *)
Lemma VerifyIntegrity_parents_dependencies_earlier_witness :
  VerifyIntegrity snap_ok = None ∧
  occurs_before (Resources snap_ok) 1 "urn:comp" ∧
  (∀ d, d ∈ Dependencies bucket → occurs_before (Resources snap_ok) 1 d) ∧
  VerifyIntegrity snap_child_first ≠ None.
Proof.
  assert (VerifyIntegrity snap_ok = None) as Hok by reflexivity.
  destruct (VerifyIntegrity_parents_dependencies_earlier snap_ok) as [Hacc _].
  destruct (VerifyIntegrity_parents_dependencies_earlier snap_child_first) as [_ Hrej].
  destruct (Hacc Hok 1 bucket eq_refl) as [Hpar Hdeps].
  split; [exact Hok|]. split; [apply Hpar; discriminate|]. split; [exact Hdeps|].
  apply (Hrej 0 bucket eq_refl). left. split; [discriminate|].
  intros (j & r & Hlt & _). lia.
Defined.

Lemma replacing_ordered : ordered (Resources snap_replacing).
Proof.
  change (ordered [db_old; db_new]).
  intros [|[|i]] r Hr; simpl in Hr; try discriminate Hr; injection Hr as <-.
  - split; [intros Hne; by destruct Hne | intros d Hd; by apply elem_of_nil in Hd].
  - split; [intros Hne; by destruct Hne | intros d Hd; by apply elem_of_nil in Hd].
Qed.

Lemma replacing_statuses_valid : statuses_valid (Resources snap_replacing).
Proof.
  change (statuses_valid [db_old; db_new]).
  intros r Hin. apply elem_of_cons in Hin as [->|Hin].
  - split; discriminate.
  - apply list_elem_of_singleton in Hin as ->. split; discriminate.
Qed.

Lemma replacing_one_live : one_live_per_URN (Resources snap_replacing).
Proof.
  change (one_live_per_URN [db_old; db_new]).
  intros [|[|i]] [|[|j]] ri rj Hi Hj Hu Hli Hlj; simpl in Hi, Hj;
    try discriminate Hi; try discriminate Hj; try reflexivity;
    injection Hi as <-; injection Hj as <-; discriminate.
Qed.

(** C2 on a replacement under way, where the URN occurs twice and one of
    the two resources is live, and on [snap_two_live]. *)
Lemma VerifyIntegrity_one_live_per_URN_witness :
  VerifyIntegrity snap_replacing = None ∧
  URN_ db_old = URN_ db_new ∧
  one_live_per_URN (Resources snap_replacing) ∧
  VerifyIntegrity snap_two_live ≠ None ∧
  (∃ i j ri rj, i < j ∧
     Resources snap_two_live !! i = Some ri ∧ Resources snap_two_live !! j = Some rj ∧
     URN_ ri = "urn:comp" ∧ URN_ rj = "urn:comp" ∧
     Live (Status ri) = true ∧ Live (Status rj) = true).
Proof.
  destruct (VerifyIntegrity_one_live_per_URN snap_replacing) as (Hone & _ & _ & Hacc).
  destruct (VerifyIntegrity_one_live_per_URN snap_two_live) as (_ & Hrej & Hdup & _).
  assert (VerifyIntegrity snap_replacing = None) as Hok.
  { apply Hacc.
    - vm_compute. reflexivity.
    - exact replacing_ordered.
    - exact replacing_statuses_valid.
    - exact replacing_one_live. }
  split; [exact Hok|]. split; [reflexivity|]. split; [exact (Hone Hok)|]. split.
  - apply (Hrej 0 1 comp comp); [lia | reflexivity..].
  - apply (Hdup "urn:comp" SpecCreated). reflexivity.
Defined.

Lemma comp_well_placed : well_placed [] comp.
Proof.
  constructor; try discriminate.
  - intros Hne. by destruct Hne.
  - intros d Hd. by apply elem_of_nil in Hd.
  - intros _ (r & Hin & _). by apply elem_of_nil in Hin.
Qed.

Lemma orphan_misplaced : ¬ well_placed [comp] orphan.
Proof.
  intros [Hpar _ _ _ _]. destruct Hpar as (r & Hin & Hu); [discriminate|].
  apply list_elem_of_singleton in Hin as ->. discriminate Hu.
Qed.

Lemma two_faults_first :
  ∀ j r', j < 1 → Resources snap_two_faults !! j = Some r' →
    well_placed (take j (Resources snap_two_faults)) r'.
Proof.
  intros [|j] r' Hlt Hr'; [|lia].
  change (Some comp = Some r') in Hr'. injection Hr' as <-.
  exact comp_well_placed.
Qed.

(** C4 on a tampered cookie, and on [snap_two_faults], where the orphan at
    index 1 is reported and the deleted resource at index 2 is not. *)
Lemma VerifyIntegrity_fail_fast_witness :
  VerifyIntegrity snap_bad_magic = Some ErrMagicMismatch ∧
  ∃ e, VerifyIntegrity snap_two_faults = Some e ∧
       error_urn e = Some "urn:orphan" ∧
       describes e [comp] orphan ∧
       ∀ e', describes e' [comp] orphan → test_order e ≤ test_order e'.
Proof.
  destruct (VerifyIntegrity_fail_fast snap_bad_magic) as [Hmagic _].
  destruct (VerifyIntegrity_fail_fast snap_two_faults) as [_ Hfirst].
  split.
  - apply Hmagic. vm_compute. discriminate.
  - apply (Hfirst ltac:(vm_compute; reflexivity) 1 orphan eq_refl).
    + exact orphan_misplaced.
    + exact two_faults_first.
Defined.

Lemma two_live_statuses_valid : statuses_valid (Resources snap_two_live).
Proof.
  change (statuses_valid [comp; comp]). intros r Hin.
  apply elem_of_cons in Hin as [->|Hin].
  - split; discriminate.
  - apply list_elem_of_singleton in Hin as ->. split; discriminate.
Qed.

(** C5 on [snap_deleted], and on [snap_two_live], whose statuses are
    valid and whose error is not a status error. *)
Lemma VerifyIntegrity_status_witness :
  VerifyIntegrity snap_deleted ≠ None ∧
  statuses_valid (Resources snap_two_live) ∧
  ∀ urn, VerifyIntegrity snap_two_live ≠ Some (ErrStatusUnspecified urn) ∧
         VerifyIntegrity snap_two_live ≠ Some (ErrStatusDeleted urn).
Proof.
  destruct (VerifyIntegrity_status snap_deleted) as [Hrej _].
  destruct (VerifyIntegrity_status snap_two_live) as [_ Hnot].
  split; [|split; [exact two_live_statuses_valid | exact (Hnot two_live_statuses_valid)]].
  apply (Hrej 1 gone eq_refl). right. reflexivity.
Defined.

(** C6 on two manifests that differ in all but the version. *)
Lemma NewMagic_deterministic_witness :
  Version manifest1 = Version manifest_bad ∧
  NewMagic manifest1 = NewMagic manifest_bad ∧
  NewMagic manifest1 = "b03030c061e2e9cc3ce111870f7e0cfbfcb4e8f855673e2a0b165add94bd8acf".
Proof.
  destruct (NewMagic_deterministic manifest1 manifest_bad) as [Heq _].
  split; [reflexivity|]. split; [apply Heq; reflexivity|].
  vm_compute. reflexivity.
Defined.

(** C10 on [snap_blank]. *)
Lemma NewMagic_empty_version_witness :
  Version (SnapManifest snap_blank) = "" ∧
  NewMagic (SnapManifest snap_blank) = "" ∧
  VerifyIntegrity snap_blank ≠ Some ErrMagicMismatch ∧
  VerifyIntegrity snap_blank = None.
Proof.
  destruct (NewMagic_empty_version snap_blank eq_refl) as [Hn Hpass].
  destruct (Hpass eq_refl) as [Hne Heq].
  split; [reflexivity|]. split; [exact Hn|]. split; [exact Hne|].
  rewrite Heq. reflexivity.
Defined.

(** C3, at [snap_ptr]: the clone holds the states of the original behind
    new pointers, and its manifest is the zero manifest, not the manifest
    of the original. *)
Theorem Clone_drops_Manifest :
  ∃ c σ',
    Clone store1 snap_ptr = Some (c, σ') ∧
    Stack c = Stack snap_ptr ∧
    states σ' c = states store1 snap_ptr ∧
    SnapManifest c = zeroManifest ∧
    SnapManifest c ≠ SnapManifest snap_ptr.
Proof.
  exists (mkSnapshot "dev" zeroManifest [3%positive; 4%positive]),
         (<[4%positive := bucket]> (<[3%positive := comp]> store1)).
  assert (Clone store1 snap_ptr
          = Some (mkSnapshot "dev" zeroManifest [3%positive; 4%positive],
                  <[4%positive := bucket]> (<[3%positive := comp]> store1))) as Hc
    by reflexivity.
  split; [exact Hc|]. split; [reflexivity|]. split; [reflexivity|].
  split; [exact (Clone_Manifest _ _ _ _ Hc)|].
  intros Heq. apply (f_equal Version) in Heq. discriminate Heq.
Qed.

Import backend backend_examples.

#[local] Existing Instance demo_imports.

Lemma demo_apply_confined : confined demo_apply.
Proof.
  intros kind stack op opts w l Hne Hin. unfold demo_apply. cbn [fst plans].
  destruct (Plan_ (Engine (Opts op))) as [p|]; [|reflexivity].
  destruct (plans w !! p); [|reflexivity].
  apply lookup_insert_ne. congruence.
Qed.

(** The run of [run_yes]: the preview is handed the plan behind pointer 7
    and checks off its first step; the update is handed the clone behind
    pointer 8, with both steps. *)
Lemma run_yes_trace :
  ∃ x r',
    PreviewThenPromptThenExecute UpdateUpdate "dev" op_plan demo_apply run_yes
    = Some (x, r') ∧
    plans (world r') !! 7%positive = Some ["update db"] ∧
    trace r' =
      [ ActApply UpdateUpdate op_plan (mkApplierOptions true true)
          (Some ["create bucket"; "update db"]);
        ActPrompt UpdateUpdate ["yes"; "no"; "details"] "no";
        ActPrintDiff UpdateUpdate
          [mkEvent ResourcePreEvent (ResourcePreEventPayload "aws:s3:Bucket")];
        ActPrompt UpdateUpdate ["yes"; "no"; "details"] "no";
        ActApply UpdateUpdate
          (set_GeneratePlan (set_Plan op_plan (Some 8%positive)) false)
          (mkApplierOptions false true)
          (Some ["create bucket"; "update db"]) ].
Proof.
  eexists _, _. split; [vm_compute; reflexivity|]. split; vm_compute; reflexivity.
Qed.

(** C7 on [run_yes], where the user asks for the details and then
    accepts: the run returns, and its trace is the preview on the plan of
    the operation, two prompts with no call of the applier, and the update
    on the clone behind pointer 8; and on an auto-approved update. *)
Lemma PreviewThenPromptThenExecute_original_plan_witness :
  8%positive ≠ 7%positive ∧
  (∃ x r' mid,
     PreviewThenPromptThenExecute UpdateUpdate "dev" op_plan demo_apply run_yes
     = Some (x, r') ∧
     answers r' = [] ∧
     trace r' = ActApply UpdateUpdate op_plan (mkApplierOptions true true)
                  (Some ["create bucket"; "update db"])
                :: mid ++
                [ActApply UpdateUpdate
                   (set_GeneratePlan (set_Plan op_plan (Some 8%positive)) false)
                   (mkApplierOptions false true) (Some ["create bucket"; "update db"])] ∧
     Forall (λ a, is_apply a = false) mid ∧
     count is_prompt mid = 2) ∧
  (∀ x r',
     PreviewThenPromptThenExecute UpdateUpdate "dev" op_plan demo_apply run_yes
     = Some (x, r') →
     ∃ acts,
       trace r' = ActApply UpdateUpdate op_plan (mkApplierOptions true true)
                    (Some ["create bucket"; "update db"]) :: acts ∧
       ∀ a, a ∈ acts → is_real a = true →
         a = ActApply UpdateUpdate
               (set_GeneratePlan (set_Plan op_plan (Some 8%positive)) false)
               (mkApplierOptions false true) (Some ["create bucket"; "update db"])) ∧
  (∃ y s',
     PreviewThenPromptThenExecute UpdateUpdate "dev" op_auto_plan demo_apply run_silent
     = Some (y, s') ∧
     trace s' =
       [ ActApply UpdateUpdate op_auto_plan (mkApplierOptions true true)
           (Some ["create bucket"; "update db"]);
         ActApply UpdateUpdate
           (set_GeneratePlan (set_Plan op_auto_plan (Some 8%positive)) false)
           (mkApplierOptions false true) (Some ["create bucket"; "update db"]) ]).
Proof.
  destruct (PreviewThenPromptThenExecute_original_plan (H := demo_imports)
              UpdateUpdate "dev" op_plan demo_apply run_yes 7%positive
              ["create bucket"; "update db"]
              eq_refl eq_refl eq_refl demo_apply_confined)
    as (Hne & Hsafe & _ & Hyes).
  destruct (PreviewThenPromptThenExecute_original_plan (H := demo_imports)
              UpdateUpdate "dev" op_auto_plan demo_apply run_silent 7%positive
              ["create bucket"; "update db"]
              eq_refl eq_refl eq_refl demo_apply_confined)
    as (_ & _ & Hauto & _).
  split; [exact Hne|]. split; [|split].
  - exact (Hyes eq_refl ltac:(discriminate) eq_refl [AskResponse details] []
             ltac:(repeat constructor) eq_refl).
  - exact Hsafe.
  - exact (Hauto eq_refl ltac:(discriminate) eq_refl).
Defined.

(** C8, the claim as it stands, on an operation with [SkipPreview] set.
    With the kind of a preview, [PreviewThenPromptThenExecute] calls the
    applier with [DryRun] off, which applies an update; and
    [PreviewThenPrompt], called on an update, prompts for yes or no
    without the choice of the details. *)
Lemma preview_kind_executes_when_preview_skipped :
  (∃ x r',
     PreviewThenPromptThenExecute PreviewUpdate "dev" op_skip demo_apply run_silent
     = Some (x, r') ∧
     trace r' = [ActApply PreviewUpdate (set_GeneratePlan op_skip false)
                   (mkApplierOptions false true) None] ∧
     Forall (λ a, is_real a = true) (trace r') ∧
     ext (world r') = 1)
  ∧
  (∃ x r',
     PreviewThenPrompt UpdateUpdate "dev" op_skip demo_apply run_accept = Some (x, r') ∧
     trace r' = [ActApply UpdateUpdate op_skip (mkApplierOptions true true) None;
                 ActPrompt UpdateUpdate ["yes"; "no"] "no"]).
Proof.
  split.
  - eexists _, _. split; [vm_compute; reflexivity|]. split; [vm_compute; reflexivity|].
    split; [|vm_compute; reflexivity]. by repeat constructor.
  - eexists _, _. split; vm_compute; reflexivity.
Qed.

(** C8, amended, on an auto-approved update, on an update with a user who
    does not answer, on [run_yes], where the user asks for the details and
    then accepts: the function prompts twice and returns a nil result with
    no answer left, and on a preview. *)
Lemma PreviewThenPrompt_confirms_witness :
  (∃ plan changes r',
     PreviewThenPrompt UpdateUpdate "dev" op_auto demo_apply run_silent
     = Some ((plan, changes, None), r') ∧
     answers r' = [] ∧
     trace r' = [ActApply UpdateUpdate op_auto (mkApplierOptions true true) None])
  ∧
  PreviewThenPrompt UpdateUpdate "dev" op_plan demo_apply run_silent = None
  ∧
  (∀ x r', PreviewThenPrompt UpdateUpdate "dev" op_plan demo_apply run_yes = Some (x, r') →
     length (answers r') < 2 ∧
     ∃ info acts,
       trace r' = ActApply UpdateUpdate op_plan (mkApplierOptions true true)
                    (Some ["create bucket"; "update db"])
                  :: info ++ ActPrompt UpdateUpdate ["yes"; "no"; "details"] "no" :: acts ∧
       (info = [] ∨ info = [ActPrintNoResources]))
  ∧
  (∃ r' info acts,
     PreviewThenPrompt UpdateUpdate "dev" op_plan demo_apply run_yes
     = Some ((Some 7%positive, 1, None), r') ∧
     answers r' = [] ∧
     plans (world r') !! 7%positive = Some ["update db"] ∧
     trace r' = ActApply UpdateUpdate op_plan (mkApplierOptions true true)
                  (Some ["create bucket"; "update db"])
                :: info ++ ActPrompt UpdateUpdate ["yes"; "no"; "details"] "no" :: acts ∧
     (info = [] ∨ info = [ActPrintNoResources]) ∧
     count is_prompt (ActPrompt UpdateUpdate ["yes"; "no"; "details"] "no" :: acts) = 2 ∧
     Forall (λ x, is_apply x = false) acts)
  ∧
  (∃ x r' a,
     PreviewThenPromptThenExecute PreviewUpdate "dev" op_plan demo_apply run_silent
     = Some (x, r') ∧
     trace r' = [a] ∧ is_real a = false).
Proof.
  destruct (PreviewThenPrompt_confirms (H := demo_imports) UpdateUpdate "dev" op_auto demo_apply run_silent)
    as [Hauto _].
  destruct (PreviewThenPrompt_confirms (H := demo_imports) UpdateUpdate "dev" op_plan demo_apply run_silent)
    as [Hsilent _].
  destruct (PreviewThenPrompt_confirms (H := demo_imports) UpdateUpdate "dev" op_plan demo_apply run_yes)
    as [Hyes _].
  destruct (PreviewThenPrompt_confirms (H := demo_imports) PreviewUpdate "dev" op_plan demo_apply run_silent)
    as [_ Hpreview].
  split; [|split; [|split; [|split]]].
  - destruct (Hauto eq_refl) as [Hnoprompt _]. apply Hnoprompt. left. reflexivity.
  - destruct (Hsilent eq_refl) as [_ Hprompt].
    destruct (Hprompt eq_refl ltac:(discriminate)) as (_ & Hwait & _).
    apply Hwait. constructor.
  - destruct (Hyes eq_refl) as [_ Hprompt].
    destruct (Hprompt eq_refl ltac:(discriminate)) as (_ & _ & Hasks & _). exact Hasks.
  - destruct (Hyes eq_refl) as [_ Hprompt].
    destruct (Hprompt eq_refl ltac:(discriminate)) as (_ & _ & _ & Hreturns).
    destruct (Hreturns [AskResponse details] (AskResponse yes) [] eq_refl
                ltac:(repeat constructor) eq_refl)
      as (r' & info & acts & Hrun & Hrest & Hworld & Htrace & Hinfo & Hcount & Hdry).
    exists r', info, acts. split; [exact Hrun|]. split; [exact Hrest|].
    split; [rewrite Hworld; reflexivity|]. split; [exact Htrace|].
    split; [exact Hinfo|]. split; [exact Hcount | exact Hdry].
  - apply Hpreview; [reflexivity | reflexivity |].
    intros p [= <-]. apply elem_of_dom. exists ["create bucket"; "update db"]. reflexivity.
Defined.

(** The run of [run_no]: no update is applied, and the plan of the
    operation is left as the preview made it. *)
Lemma run_no_trace :
  ∃ changes r',
    PreviewThenPromptThenExecute UpdateUpdate "dev" op_plan demo_apply run_no
    = Some ((changes, Some Bail), r') ∧
    ext (world r') = 0 ∧
    trace r' =
      [ ActApply UpdateUpdate op_plan (mkApplierOptions true true)
          (Some ["create bucket"; "update db"]);
        ActPrompt UpdateUpdate ["yes"; "no"; "details"] "no";
        ActPrintDiff UpdateUpdate
          [mkEvent ResourcePreEvent (ResourcePreEventPayload "aws:s3:Bucket")];
        ActPrompt UpdateUpdate ["yes"; "no"; "details"] "no";
        ActPrintDeclined UpdateUpdate ].
Proof.
  eexists _, _. split; [vm_compute; reflexivity|]. split; vm_compute; reflexivity.
Qed.

(** C9 on [run_no]: the user asks for the details, then declines. *)
Lemma declined_confirmation_bails_witness :
  (∃ r', confirmBeforeUpdating UpdateUpdate "dev" [] (Opts op_plan) run_no
         = Some (Some Bail, r') ∧ answers r' = [])
  ∧
  (∃ changes r' acts,
     PreviewThenPromptThenExecute UpdateUpdate "dev" op_plan demo_apply run_no
     = Some ((changes, Some Bail), r') ∧
     trace r' = acts ∧
     Forall (λ a, is_real a = false) acts).
Proof.
  assert (Forall (λ s, s ≠ yes ∧ s ≠ no) [details]) as Hshown.
  { constructor; [split; discriminate | constructor]. }
  destruct (declined_confirmation_bails (H := demo_imports) UpdateUpdate "dev" op_plan demo_apply run_no
              [details] [] Hshown eq_refl) as [Hconfirm Hrun].
  split.
  - destruct (Hconfirm []) as (r' & Hc & _ & _ & Ha & _).
    exists r'. split; [exact Hc | exact Ha].
  - destruct (Hrun eq_refl eq_refl ltac:(discriminate)
                (Some 8%positive)
                (mkRun (mkWorld (<[8%positive := ["create bucket"; "update db"]]>
                                   (plans world0)) 0)
                       [AskResponse details; AskResponse no] [])
                eq_refl eq_refl)
      as (changes & r' & acts & Hp & Ht & Hf).
    exists changes, r', acts. split; [exact Hp|]. split; [exact Ht | exact Hf].
Defined.

(** * More of the theorems at work *)

(** The digest of [sha256.Sum256] has 32 elements, all of them bytes. *)
Lemma sha256_round_length s kw : length s = 8 → length (sha256.round s kw) = 8.
Proof.
  destruct s as [|a [|b [|c [|d [|e [|f [|g [|h [|i s]]]]]]]]];
    intros Hlen; simpl in Hlen; try discriminate Hlen; reflexivity.
Qed.

Lemma sha256_rounds_length kws s :
  length s = 8 → length (fold_left sha256.round kws s) = 8.
Proof.
  revert s. induction kws as [|kw kws IH]; intros s Hs; [done|].
  apply IH. by apply sha256_round_length.
Qed.

Lemma sha256_block_length h bs : length h = 8 → length (sha256.block h bs) = 8.
Proof.
  intros Hh. unfold sha256.block. cbv zeta.
  rewrite length_map, length_combine, sha256_rounds_length by done. lia.
Qed.

Lemma sha256_blocks_length n h bs : length h = 8 → length (sha256.blocks n h bs) = 8.
Proof.
  revert h bs. induction n as [|n IH]; intros h bs Hh; [done|].
  apply IH. by apply sha256_block_length.
Qed.

Lemma sha256_be_bytes_length n x : length (sha256.be_bytes n x) = n.
Proof. induction n as [|n IH]; [done|]. cbn [sha256.be_bytes length]. by rewrite IH. Qed.

Lemma sha256_be_bytes_range n x :
  Forall (λ b, 0 ≤ b < 256)%Z (sha256.be_bytes n x).
Proof.
  induction n as [|n IH]; [constructor|]. cbn [sha256.be_bytes]. constructor; [|done].
  change 255%Z with (Z.ones 8). rewrite Z.land_ones by lia.
  apply Z.mod_pos_bound. lia.
Qed.

Lemma sha256_length bs : length (sha256.Sum256 bs) = 32.
Proof.
  unfold sha256.Sum256. cbv zeta.
  generalize (sha256_blocks_length (length (sha256.pad bs) / 64) sha256.init (sha256.pad bs)
                eq_refl).
  generalize (sha256.blocks (length (sha256.pad bs) / 64) sha256.init (sha256.pad bs)).
  intros ws Hws.
  assert (∀ l : list Z, length (flat_map (sha256.be_bytes 4) l) = 4 * length l) as Hflat.
  { induction l as [|w l IH]; [done|].
    cbn [flat_map]. rewrite length_app, sha256_be_bytes_length, IH. cbn [length]. lia. }
  rewrite Hflat, Hws. reflexivity.
Qed.

Lemma sha256_range bs : Forall (λ b, 0 ≤ b < 256)%Z (sha256.Sum256 bs).
Proof.
  unfold sha256.Sum256. cbv zeta.
  generalize (sha256.blocks (length (sha256.pad bs) / 64) sha256.init (sha256.pad bs)).
  induction l as [|w l IH]; [constructor|].
  cbn [flat_map]. apply Forall_app. split; [apply sha256_be_bytes_range | done].
Qed.

(** The wording of the errors, on the child that stands before its
    parent, on the orphan, and on the resource that is its own parent:
    "comes after it" for the first, "missing" for the other two. *)
Lemma VerifyIntegrity_after_or_missing_witness :
  VerifyIntegrity snap_child_first = Some (ErrParentAfter "urn:bucket" "urn:comp") ∧
  located (ErrParentAfter "urn:bucket" "urn:comp") (Resources snap_child_first) ∧
  VerifyIntegrity snap_two_faults = Some (ErrParentMissing "urn:orphan" "urn:nowhere") ∧
  located (ErrParentMissing "urn:orphan" "urn:nowhere") (Resources snap_two_faults) ∧
  VerifyIntegrity snap_selfish = Some (ErrParentMissing "urn:self" "urn:self") ∧
  located (ErrParentMissing "urn:self" "urn:self") (Resources snap_selfish).
Proof.
  assert (VerifyIntegrity snap_child_first = Some (ErrParentAfter "urn:bucket" "urn:comp"))
    as H1 by reflexivity.
  assert (VerifyIntegrity snap_two_faults = Some (ErrParentMissing "urn:orphan" "urn:nowhere"))
    as H2 by reflexivity.
  assert (VerifyIntegrity snap_selfish = Some (ErrParentMissing "urn:self" "urn:self"))
    as H3 by reflexivity.
  split; [exact H1|]. split; [exact (VerifyIntegrity_after_or_missing _ _ H1)|].
  split; [exact H2|]. split; [exact (VerifyIntegrity_after_or_missing _ _ H2)|].
  split; [exact H3 | exact (VerifyIntegrity_after_or_missing _ _ H3)].
Defined.

(** The prefix of length 1 of [snap_ok]. *)
Lemma VerifyIntegrity_prefix_witness :
  VerifyIntegrity snap_ok = None ∧
  VerifyIntegrity (mkSnapshot "dev" manifest1 [comp]) = None.
Proof.
  assert (VerifyIntegrity snap_ok = None) as Hok by reflexivity.
  split; [exact Hok|]. exact (VerifyIntegrity_prefix snap_ok 1 Hok).
Defined.

Lemma bucket_unreferenced :
  ∀ r, r ∈ Resources snap_ok →
    (Parent r ≠ "" → Parent r ≠ URN_ bucket) ∧ URN_ bucket ∉ Dependencies r.
Proof.
  change (Resources snap_ok) with [comp; bucket]. intros r Hin.
  apply elem_of_cons in Hin as [->|Hin].
  - split; [discriminate|]. apply not_elem_of_nil.
  - apply list_elem_of_singleton in Hin as ->. split; [discriminate|].
    intros Hin. apply list_elem_of_singleton in Hin. discriminate Hin.
Qed.

(** The bucket, which nothing names, taken out of [snap_ok]. *)
Lemma VerifyIntegrity_delete_unreferenced_witness :
  VerifyIntegrity snap_ok = None ∧
  Resources snap_ok !! 1 = Some bucket ∧
  VerifyIntegrity (mkSnapshot "dev" manifest1 [comp]) = None.
Proof.
  assert (VerifyIntegrity snap_ok = None) as Hok by reflexivity.
  split; [exact Hok|]. split; [reflexivity|].
  exact (VerifyIntegrity_delete_unreferenced snap_ok 1 bucket Hok eq_refl bucket_unreferenced).
Defined.

(** A version and no cookie: rejected, with no resource looked at. *)
Lemma NewMagic_nonempty_version_witness :
  Version manifest_nocookie ≠ "" ∧
  String.length (NewMagic manifest_nocookie) = 64 ∧
  VerifyIntegrity (mkSnapshot "dev" manifest_nocookie [gone]) = Some ErrMagicMismatch.
Proof.
  assert (Version manifest_nocookie ≠ "") as Hv by discriminate.
  destruct (NewMagic_nonempty_version (H := spec_imports) manifest_nocookie sha256_length Hv)
    as [H64 Hrej].
  split; [exact Hv|]. split; [exact H64|]. exact (Hrej eq_refl "dev" [gone]).
Defined.

(** Two manifests with the same cookie. *)
Lemma NewMagic_same_cookie_same_digest_witness :
  NewMagic manifest1 = NewMagic manifest_nocookie ∧
  @Sum256 spec_imports (bytes_of_string (Version manifest1))
  = @Sum256 spec_imports (bytes_of_string (Version manifest_nocookie)).
Proof.
  assert (NewMagic manifest1 = NewMagic manifest_nocookie) as Heq
    by (vm_compute; reflexivity).
  split; [exact Heq|].
  exact (NewMagic_same_cookie_same_digest (H := spec_imports) manifest1 manifest_nocookie
           sha256_range ltac:(discriminate) ltac:(discriminate) Heq).
Defined.

(** [snap_ptr], cloned and verified. *)
Lemma Clone_then_VerifyIntegrity_witness :
  deref store1 snap_ptr = Some snap_ok ∧
  ∃ c σ' cv,
    Clone store1 snap_ptr = Some (c, σ') ∧ deref σ' c = Some cv ∧
    Resources cv = Resources snap_ok ∧
    VerifyIntegrity cv ≠ Some ErrMagicMismatch ∧
    VerifyIntegrity cv = None.
Proof.
  assert (deref store1 snap_ptr = Some snap_ok) as Hd by reflexivity.
  split; [exact Hd|].
  destruct (Clone_then_VerifyIntegrity store1 snap_ptr snap_ok Hd)
    as (c & σ' & cv & Hc & Hcv & Hrs & _ & Hne & Hacc).
  exists c, σ', cv. split; [exact Hc|]. split; [exact Hcv|]. split; [exact Hrs|].
  split; [exact Hne|]. apply Hacc. reflexivity.
Defined.

(** [snap_ptr], cloned: a write behind a pointer of either snapshot is
    not seen through the other. *)
Lemma Clone_copies_resources_witness :
  states store1 snap_ptr = Some [comp; bucket] ∧
  ∃ c σ',
    Clone store1 snap_ptr = Some (c, σ') ∧
    Stack c = "dev" ∧
    states σ' c = Some [comp; bucket] ∧
    (∀ l, l ∈ Resources c → l ∉ Resources snap_ptr) ∧
    states (<[1%positive := gone]> σ') c = Some [comp; bucket].
Proof.
  assert (states store1 snap_ptr = Some [comp; bucket]) as Hs by reflexivity.
  split; [exact Hs|].
  destruct (Clone_copies_resources store1 snap_ptr [comp; bucket] Hs)
    as (c & σ' & Hc & Hstack & Hsc & _ & Hdisj & Hold & _).
  exists c, σ'. split; [exact Hc|]. split; [exact Hstack|]. split; [exact Hsc|].
  split; [exact Hdisj|]. apply Hold.
  change (Resources snap_ptr) with [1%positive; 2%positive].
  apply elem_of_cons. left. reflexivity.
Defined.

(** [confirmBeforeUpdating] on [run_no]: one answer that asks for the
    details, then the "no"; two prompts, the details printed once. *)
Lemma confirmBeforeUpdating_consumes_witness :
  ∃ shown a acts,
    [AskResponse details; AskResponse no] = shown ++ [a] ∧
    Forall (λ x, terminal x = false) shown ∧ terminal a = true ∧
    Some Bail = outcome UpdateUpdate a ∧
    world0 = world0 ∧
    [ ActPrompt UpdateUpdate ["yes"; "no"; "details"] "no";
      ActPrintDiff UpdateUpdate [];
      ActPrompt UpdateUpdate ["yes"; "no"; "details"] "no";
      ActPrintDeclined UpdateUpdate ] = acts ∧
    count is_prompt acts = S (length shown) ∧
    count is_diff acts = count asks_details shown ∧
    Forall (λ x, is_apply x = false) acts.
Proof.
  exact (confirmBeforeUpdating_consumes (H := demo_imports) UpdateUpdate "dev" []
           (Opts op_plan) run_no (Some Bail)
           (mkRun world0 []
              [ ActPrompt UpdateUpdate ["yes"; "no"; "details"] "no";
                ActPrintDiff UpdateUpdate [];
                ActPrompt UpdateUpdate ["yes"; "no"; "details"] "no";
                ActPrintDeclined UpdateUpdate ])
           eq_refl).
Defined.

(** A preview with [SkipPreview] set, and a user who would decline: the
    update is applied and the answers are not read. *)
Lemma skipped_preview_executes_witness :
  PreviewThenPromptThenExecute PreviewUpdate "dev" op_skip demo_apply run_no
  = Some ((1, None),
          mkRun (mkWorld (plans world0) 1) [AskResponse details; AskResponse no]
            [ActApply PreviewUpdate (set_GeneratePlan op_skip false)
               (mkApplierOptions false true) None]).
Proof.
  exact (proj1 (skipped_preview_executes (H := demo_imports) PreviewUpdate "dev" op_skip
                  demo_apply run_no eq_refl)).
Defined.

(** A preview that fails, on [run_yes]: the update is not applied and
    both answers are left. *)
Lemma failed_preview_stops_witness :
  PreviewThenPromptThenExecute UpdateUpdate "dev" op_plan demo_fail run_yes
  = Some ((0, Some Bail),
          mkRun (mkWorld (<[8%positive := ["create bucket"; "update db"]]> (plans world0)) 0)
            [AskResponse details; AskResponse yes]
            [ActApply UpdateUpdate op_plan (mkApplierOptions true true)
               (Some ["create bucket"; "update db"])]).
Proof.
  exact (failed_preview_stops (H := demo_imports) UpdateUpdate "dev" op_plan demo_fail run_yes
           (Some 8%positive)
           (mkRun (mkWorld (<[8%positive := ["create bucket"; "update db"]]> (plans world0)) 0)
              [AskResponse details; AskResponse yes] [])
           Bail eq_refl eq_refl eq_refl).
Defined.

(** An experimental update with no saved plan: the update is handed the
    plan the preview returned. *)
Lemma generated_plan_reused_witness :
  ∃ x r',
    PreviewThenPromptThenExecute UpdateUpdate "dev" op_exp demo_generate run_silent
    = Some (x, r') ∧
    answers r' = [] ∧
    trace r' =
      [ ActApply UpdateUpdate op_exp (mkApplierOptions true true) None;
        ActApply UpdateUpdate
          (set_GeneratePlan (set_Plan op_exp (Some 7%positive)) false)
          (mkApplierOptions false true) (Some ["create bucket"; "update db"]) ] ∧
    Plan_ (Engine (Opts (set_GeneratePlan (set_Plan op_exp (Some 7%positive)) false)))
    = Some 7%positive ∧
    GeneratePlan (Engine (Opts (set_GeneratePlan (set_Plan op_exp (Some 7%positive)) false)))
    = false.
Proof.
  exact (generated_plan_reused (H := demo_imports) UpdateUpdate "dev" op_exp demo_generate
           run_silent eq_refl eq_refl eq_refl ltac:(discriminate) eq_refl).
Defined.
